(** * kira: creation of work items ([internal/commands/new.go])

    A shallow embedding of the [new] command of the kira CLI: positional
    argument disambiguation, status defaulting, identifier allocation,
    construction of the template input map, destination file naming and the
    final write, together with the linter contract exercised by
    [TestLintWorkItems].

    Go strings are byte sequences and are modelled by [string] (a list of
    8-bit characters).  Go maps are [gmap]s; a [nil] map and an empty map are
    not distinguished (the command always passes a non-nil map).  The
    command runs in a state and error monad over the tree, the terminal and
    the clock.  [validation.GetNextID], [templates.GetTemplateInputs] and
    [templates.ProcessTemplate] are parameters of the command; the allocator,
    the linter and the item validator, whose sources are not at hand, are
    modelled from the specification.

    The definitions come first, the properties after them. *)

From Stdlib Require Import Ascii String NArith DecimalString.
From Stdlib Require DecimalPos DecimalN.
From stdpp Require Import gmap strings list fin_maps.

Local Open Scope string_scope.
Local Open Scope stdpp_scope.
Local Open Scope list_scope.

(** ** Byte strings *)

Module Bytes.

Fixpoint map (f : ascii → ascii) (s : string) : string :=
  match s with
  | EmptyString => EmptyString
  | String c r => String (f c) (map f r)
  end.

Fixpoint mem (c : ascii) (s : string) : bool :=
  match s with
  | EmptyString => false
  | String d r => if decide (c = d) then true else mem c r
  end.

(** [contains s sub]: [sub] occurs in [s] (Go: [strings.Contains]). *)
Definition contains (s sub : string) : Prop :=
  ∃ pre post, s = pre +:+ sub +:+ post.

Fixpoint concat (l : list string) : string :=
  match l with
  | [] => ""
  | s :: r => s +:+ concat r
  end.

(** Go: [strings.Join]. *)
Fixpoint join (sep : string) (l : list string) : string :=
  match l with
  | [] => ""
  | [s] => s
  | s :: r => s +:+ sep +:+ join sep r
  end.

(** The pieces of a text between the occurrences of [sep] (Go:
    [strings.Split] with a one-byte separator). *)
Fixpoint split (sep : ascii) (s : string) : list string :=
  match s with
  | EmptyString => [""]
  | String c r =>
      if decide (c = sep) then "" :: split sep r
      else match split sep r with
           | [] => [String c ""]
           | h :: t => String c h :: t
           end
  end.

Fixpoint repeat (c : ascii) (n : nat) : string :=
  match n with
  | O => ""
  | S k => String c (repeat c k)
  end.

End Bytes.

(** ** [kebabCase] and the two library calls it is made of *)

Definition is_upper (c : ascii) : bool :=
  let n := N_of_ascii c in (65 <=? n)%N && (n <=? 90)%N.

(** [unicode.ToLower] on the ASCII range: ['A'..'Z'] are shifted by 32, every
    other byte is kept.  (Bytes above 127 are kept as they are: the embedding
    covers the lower-casing of ASCII letters.) *)
Definition lower_byte (c : ascii) : ascii :=
  if is_upper c then ascii_of_N (N_of_ascii c + 32) else c.

(** Go: [strings.ToLower]. *)
Definition ToLower (s : string) : string := Bytes.map lower_byte s.

(** Go: [strings.ReplaceAll(s, old, new)] for one-byte [old] and [new], the
    only way [kebabCase] calls it. *)
Definition ReplaceAll (s : string) (old new : ascii) : string :=
  Bytes.map (λ c, if decide (c = old) then new else c) s.

(** [func kebabCase(s string) string] *)
Definition kebabCase (s : string) : string :=
  let s := ToLower s in
  let s := ReplaceAll s " " "-" in
  let s := ReplaceAll s "_" "-" in
  s.

(** The description of [kebabCase] character by character: letters are
    lowercased, space and underscore become a hyphen, the rest is kept. *)
Definition kebab_char (c : ascii) : ascii :=
  if is_upper c then lower_byte c
  else if decide (c = " "%char) then "-"%char
  else if decide (c = "_"%char) then "-"%char
  else c.


(** [fmt.Sprintf("%s-%s.%s.md", nextID, kebabCase(title), template)] *)
Definition item_filename (nextID title template : string) : string :=
  nextID +:+ "-" +:+ kebabCase title +:+ "." +:+ template +:+ ".md".

(** ** Paths ([path/filepath] on a Unix system) *)

Module filepath.

(** The elements of a path between its separators; [split "a//b"] is
    [["a"; ""; "b"]]. *)
Definition split (s : string) : list string := Bytes.split "/" s.

Definition rooted (p : string) : bool :=
  match p with
  | String c _ => bool_decide (c = "/"%char)
  | EmptyString => false
  end.

(** The element loop of [Clean]: [out] is the output so far, last element
    first.  Empty elements and ["."] are dropped; [".."] removes the
    element before it, is kept at the start of a relative path, and is
    dropped at the start of a rooted one. *)
Fixpoint clean_elems (root : bool) (out : list string) (elems : list string)
  : list string :=
  match elems with
  | [] => rev out
  | e :: r =>
      if decide (e = "" ∨ e = ".") then clean_elems root out r
      else if decide (e = "..") then
        match out with
        | top :: out' =>
            if decide (top = "..") then clean_elems root (e :: out) r
            else clean_elems root out' r
        | [] =>
            if root then clean_elems root [] r
            else clean_elems root [e] r
        end
      else clean_elems root (e :: out) r
  end.

(** Go: [filepath.Clean]. *)
Definition Clean (p : string) : string :=
  let out := Bytes.join "/" (clean_elems (rooted p) [] (split p)) in
  if rooted p then "/" +:+ out
  else if decide (out = "") then "." else out.

(** Go: [filepath.Join]: empty elements before the first non-empty one are
    ignored, the rest is joined with the separator and cleaned. *)
Fixpoint Join (elem : list string) : string :=
  match elem with
  | [] => ""
  | e :: r => if decide (e = "") then Join r
              else Clean (Bytes.join "/" elem)
  end.

(** Go: [filepath.Base] of a cleaned path: its last element. *)
Definition Base (p : string) : string := List.last (split p) "".

(** Go: [filepath.Dir]: the path without its last element, cleaned. *)
Definition Dir (p : string) : string :=
  let d := Bytes.join "/" (removelast (split p)) in
  Clean (if rooted p then "/" +:+ d else d).

(** A cleaned path with all the directories above it, outermost first:
    [chain ".work/1_todo"] is [[".work"; ".work/1_todo"]]. *)
Fixpoint chain_from (pre : string) (elems : list string) : list string :=
  match elems with
  | [] => []
  | e :: r =>
      if decide (e = "") then chain_from pre r
      else let p := pre +:+ e in p :: chain_from (p +:+ "/") r
  end.

Definition chain (p : string) : list string :=
  chain_from (if rooted p then "/" else "") (split p).

End filepath.

(** ** The file system

    A flat model of the files and directories the command sees, keyed by
    cleaned path relative to the working directory.  [readonly] holds the
    directories in which nothing can be created; it stands for the reasons a
    system call fails other than the shape of the tree.  [unreadable] holds
    the files whose content cannot be read. *)

Record FS := {
  dirs : gset string;
  files : gmap string string;
  readonly : gset string;
  unreadable : gset string
}.

Definition add_dirs (fs : FS) (ds : list string) : FS :=
  {| dirs := dirs fs ∪ list_to_set ds; files := files fs;
     readonly := readonly fs; unreadable := unreadable fs |}.

Definition put_file (fs : FS) (name data : string) : FS :=
  {| dirs := dirs fs; files := <[name := data]> (files fs);
     readonly := readonly fs; unreadable := unreadable fs |}.

Definition is_dir (fs : FS) (p : string) : bool :=
  bool_decide (p = "." ∨ p = "/" ∨ p ∈ dirs fs).

Definition is_file (fs : FS) (p : string) : bool :=
  bool_decide (is_Some (files fs !! p)).

(** Go: [os.MkdirAll(path, perm)].  Nothing happens when [path] is a
    directory already; otherwise every missing directory on the way is
    created.  The call fails, changing nothing, when one of the elements is a
    file or when a missing directory would have to be made in a read-only
    one. *)
Definition MkdirAll (fs : FS) (path : string) : string + FS :=
  if is_dir fs path then inr fs
  else
    let ch := filepath.chain path in
    if existsb (is_file fs) ch then
      inl ("mkdir " +:+ path +:+ ": not a directory")
    else if existsb (λ d, negb (is_dir fs d)
                          && bool_decide (filepath.Dir d ∈ readonly fs)) ch then
      inl ("mkdir " +:+ path +:+ ": permission denied")
    else inr (add_dirs fs ch).

(** Go: [os.WriteFile(name, data, perm)]: creates or truncates [name], then
    writes [data].  The call fails, changing nothing, when [name] is a
    directory, when the directory of [name] does not exist, or when [name]
    would have to be created in a read-only directory. *)
Definition WriteFile (fs : FS) (name data : string) : string + FS :=
  if is_dir fs name then
    inl ("open " +:+ name +:+ ": is a directory")
  else if negb (is_dir fs (filepath.Dir name)) then
    inl ("open " +:+ name +:+ ": no such file or directory")
  else if negb (is_file fs name)
          && bool_decide (filepath.Dir name ∈ readonly fs) then
    inl ("open " +:+ name +:+ ": permission denied")
  else inr (put_file fs name data).

(** ** Numbers and text *)

(** Go: [strconv.Itoa] on a non-negative number ([%d] in a format). *)
Definition Itoa (n : N) : string := NilZero.string_of_uint (N.to_uint n).

(** The value of a non-empty string of decimal digits. *)
Definition digits_value (s : string) : option N :=
  if decide (s = "") then None else N.of_uint <$> NilEmpty.uint_of_string s.

(** Go: [strconv.Atoi]: an optional sign, then decimal digits; the value has
    to fit a 64-bit [int].  The error is the text of [*strconv.NumError]
    (the quoting of the input is the plain one). *)
Definition Atoi (s : string) : string + Z :=
  let quoted := String "034" s +:+ String "034" "" in
  let '(neg, ds) :=
    match s with
    | String "-" r => (true, r)
    | String "+" r => (false, r)
    | _ => (false, s)
    end in
  match digits_value ds with
  | None => inl ("strconv.Atoi: parsing " +:+ quoted +:+ ": invalid syntax")
  | Some n =>
      let z := if (neg : bool) then (- Z.of_N n)%Z else Z.of_N n in
      if bool_decide (- 2 ^ 63 ≤ z < 2 ^ 63)%Z then inr z
      else inl ("strconv.Atoi: parsing " +:+ quoted
                +:+ ": value out of range")
  end.

Fixpoint trim_left (s : string) : string :=
  match s with
  | String c r => if Ascii.is_space c then trim_left r else s
  | EmptyString => EmptyString
  end.

(** Go: [strings.TrimSpace] (ASCII white space). *)
Definition TrimSpace (s : string) : string :=
  String.rev (trim_left (String.rev (trim_left s))).

(** ** Configuration, template inputs, errors *)

(** [config.Config], as far as [createWorkItem] reads it. *)
Record Config := {
  StatusFolders : gmap string string;
  Templates : gmap string string;
  DefaultStatus : string
}.

(** [templates.InputType] *)
Inductive InputType :=
  | InputString
  | InputNumber
  | InputDateTime
  | InputOther (name : string).

(** [templates.Input] *)
Record Input := {
  Name : string;
  Type_ : InputType;
  Description : string;
  Options : list string;
  DateFormat : string
}.

(** The errors of the command, one constructor per [fmt.Errorf] (or returned
    library error); [Error] gives the text.  The constructors are named after
    the error kinds of the specification where it names one. *)
Inductive error :=
  | AmbiguousArguments (second third : string) (valid : list string)
  | HelpInputsNeedsTemplate
  | TitleRequired
  | InvalidStatus (status : string) (valid : list string)
  | AllocationError (cause : string)
  | TemplateInputsError (cause : string)
  | TemplateError (cause : string)
  | InvalidStatusFolder (status : string)
  | CreationErrorFolder (cause : string)
  | CreationErrorFile (cause : string)
  | ReadError (cause : string)
  | InvalidTemplateSelection
  | InvalidOptionSelection
  | InvalidNumber (cause : string)
  | InvalidDate (cause : string).

Definition Error (e : error) : string :=
  match e with
  | AmbiguousArguments a1 a2 valid =>
      "invalid status: neither '" +:+ a1 +:+ "' nor '" +:+ a2
      +:+ "' is a valid status (valid: " +:+ Bytes.join ", " valid +:+ ")"
  | HelpInputsNeedsTemplate =>
      "template must be specified when using --help-inputs"
  | TitleRequired =>
      "title is required (provide as argument or use --interactive flag)"
  | InvalidStatus status valid =>
      "invalid status '" +:+ status +:+ "' (valid: "
      +:+ Bytes.join ", " valid +:+ ")"
  | AllocationError cause => "failed to get next ID: " +:+ cause
  | TemplateInputsError cause => "failed to get template inputs: " +:+ cause
  | TemplateError cause => "failed to process template: " +:+ cause
  | InvalidStatusFolder status =>
      "invalid status folder for status '" +:+ status +:+ "'"
  | CreationErrorFolder cause => "failed to create status folder: " +:+ cause
  | CreationErrorFile cause => "failed to write work item file: " +:+ cause
  | ReadError cause => cause
  | InvalidTemplateSelection => "invalid template selection"
  | InvalidOptionSelection => "invalid option selection"
  | InvalidNumber cause => "invalid number: " +:+ cause
  | InvalidDate cause => "invalid date format: " +:+ cause
  end.

(** ** The world a command runs in, and the command monad *)

(** [stdin] holds the lines a terminal still delivers (without their newline),
    one per read; [stdout] what has been printed, oldest first; [today] is
    [time.Now().Format("2006-01-02")]; [range_order] is the order in which a
    [range] loop visits the keys of a map, which Go leaves unspecified. *)
Record World := {
  fs : FS;
  stdin : list string;
  stdout : list string;
  today : string;
  range_order : list string → list string
}.

(** The packages [createWorkItem] calls and that are not part of this unit:
    [validation.GetNextID], [templates.GetTemplateInputs],
    [templates.ProcessTemplate] (all three only read the tree) and
    [time.Parse] ([None] when the value parses). *)
Record Collab := {
  GetNextID : FS → string + string;
  GetTemplateInputs : FS → string → string + list Input;
  ProcessTemplate : FS → string → gmap string string → string + string;
  time_Parse : string → string → option string
}.

Definition M (A : Type) : Type := World → (error + A) * World.

#[global] Instance M_ret : MRet M := λ A a w, (inr a, w).

#[global] Instance M_bind : MBind M := λ A B f m w,
  match m w with
  | (inl e, w') => (inl e, w')
  | (inr a, w') => f a w'
  end.

Definition fail {A} (e : error) : M A := λ w, (inl e, w).

Definition gets {A} (f : World → A) : M A := λ w, (inr (f w), w).

Definition set_fs (fs' : FS) : M unit := λ w,
  (inr (), {| fs := fs'; stdin := stdin w; stdout := stdout w;
              today := today w; range_order := range_order w |}).

(** [fmt.Print] *)
Definition Print (s : string) : M unit := λ w,
  (inr (), {| fs := fs w; stdin := stdin w; stdout := stdout w ++ [s];
              today := today w; range_order := range_order w |}).

(** [bufio.NewReader(os.Stdin).ReadString('\n')] on a terminal: the next
    line with its newline, or the error [EOF]. *)
Definition ReadString : M string := λ w,
  match stdin w with
  | [] => (inl (ReadError "EOF"), w)
  | line :: rest =>
      (inr (line +:+ String "010" ""),
       {| fs := fs w; stdin := rest; stdout := stdout w;
          today := today w; range_order := range_order w |})
  end.

(** The keys of a map in the order a [range] loop visits them. *)
Definition range_keys (m : gmap string string) : M (list string) :=
  gets (λ w, range_order w (map_to_list m).*1).

(** A call to a collaborator that reads the tree; a failure is wrapped by
    [wrap]. *)
Definition call {A} (f : FS → string + A) (wrap : string → error) : M A := λ w,
  match f (fs w) with
  | inl cause => (inl (wrap cause), w)
  | inr a => (inr a, w)
  end.

(** A system call that changes the tree. *)
Definition syscall (f : FS → string + FS) (wrap : string → error) : M unit := λ w,
  match f (fs w) with
  | inl cause => (inl (wrap cause), w)
  | inr fs' => set_fs fs' w
  end.

(** [for i, x := range l { body }] *)
Fixpoint for_each {A} (i : nat) (l : list A) (body : nat → A → M unit) : M unit :=
  match l with
  | [] => mret ()
  | x :: r => body i x ;; for_each (S i) r body
  end.

(** ** Prompts *)

(** [func promptString(prompt string) (string, error)] *)
Definition promptString (prompt : string) : M string :=
  Print prompt ;;
  input ← ReadString;
  mret (TrimSpace input).

(** The shared tail of [selectTemplate] and [promptStringOptions]: read a
    number and return the entry it names. *)
Definition choose (entries : list string) (invalid : error) : M string :=
  input ← ReadString;
  match Atoi (TrimSpace input) with
  | inr choice =>
      if bool_decide (choice < 1 ∨ Z.of_nat (length entries) < choice)%Z
      then fail invalid
      else match entries !! Z.to_nat (choice - 1) with
           | Some entry => mret entry
           | None => fail invalid
           end
  | inl _ => fail invalid
  end.

Definition print_numbered (entries : list string) : M unit :=
  for_each 0 entries (λ i entry,
    Print (Itoa (N.of_nat (i + 1)) +:+ ". " +:+ entry +:+ String "010" "")).

(** [func promptStringOptions(prompt string, options []string) (string, error)] *)
Definition promptStringOptions (prompt : string) (options : list string) : M string :=
  Print (prompt +:+ String "010" "") ;;
  print_numbered options ;;
  Print "Select option (number): " ;;
  choose options InvalidOptionSelection.

(** [func promptNumber(prompt string) (string, error)] *)
Definition promptNumber (prompt : string) : M string :=
  Print prompt ;;
  input ← ReadString;
  match Atoi (TrimSpace input) with
  | inl cause => fail (InvalidNumber cause)
  | inr _ => mret (TrimSpace input)
  end.

(** [func promptDateTime(prompt, format string) (string, error)] *)
Definition promptDateTime (E : Collab) (prompt format : string) : M string :=
  Print (prompt +:+ " (format: " +:+ format +:+ "): ") ;;
  input ← ReadString;
  match time_Parse E format (TrimSpace input) with
  | Some cause => fail (InvalidDate cause)
  | None => mret (TrimSpace input)
  end.

(** [func promptForInput(input templates.Input) (string, error)] *)
Definition promptForInput (E : Collab) (input : Input) : M string :=
  let prompt :=
    "Enter " +:+ Name input +:+ " (" +:+ Description input +:+ "): " in
  match Type_ input with
  | InputString =>
      if bool_decide (0 < length (Options input))
      then promptStringOptions prompt (Options input)
      else promptString prompt
  | InputNumber => promptNumber prompt
  | InputDateTime => promptDateTime E prompt (DateFormat input)
  | InputOther _ => promptString prompt
  end.

(** [func selectTemplate(cfg *config.Config) (string, error)] *)
Definition selectTemplate (cfg : Config) : M string :=
  Print ("Available templates:" +:+ String "010" "") ;;
  templates ← range_keys (Templates cfg);
  print_numbered templates ;;
  Print "Select template (number): " ;;
  choose templates InvalidTemplateSelection.

(** [cfg.Templates[template]]: the zero value when the key is missing. *)
Definition template_file (cfg : Config) (template : string) : string :=
  default "" (Templates cfg !! template).

(** [func showTemplateInputs(cfg *config.Config, template string) error] *)
Definition showTemplateInputs (E : Collab) (cfg : Config) (template : string) : M unit :=
  let templatePath := filepath.Join [".work"; template_file cfg template] in
  inputs ← call (λ t, GetTemplateInputs E t templatePath) TemplateInputsError;
  Print ("Available inputs for template '" +:+ template +:+ "':"
         +:+ String "010" "") ;;
  for_each 0 inputs (λ _ input,
    Print ("- " +:+ Name input +:+ " (" +:+
           match Type_ input with
           | InputString => "string"
           | InputNumber => "number"
           | InputDateTime => "datetime"
           | InputOther n => n
           end +:+ "): " +:+ Description input +:+ String "010" "") ;;
    if bool_decide (0 < length (Options input))
    then Print ("  Options: " +:+ Bytes.join ", " (Options input)
                +:+ String "010" "")
    else mret ()).

(** ** [createWorkItem] *)

(** The four values read off the positional arguments. *)
Record Positional := {
  p_template : string;
  p_title : string;
  p_status : string;
  p_description : string
}.

(** Lines 50-89 of [createWorkItem]: the positional arguments, with the
    second and third one taken as status and title in either order.
    [statusSet] is the set of keys of [cfg.StatusFolders], [validStatuses]
    the same keys as the [range] loop met them.  The empty string is what an
    unset local holds. *)
Definition parseArgs (statusSet : gset string) (validStatuses : list string)
    (args : list string) : error + Positional :=
  let arg i := nth i args "" in
  let template := if bool_decide (0 < length args) then arg 0 else "" in
  let '(status, title) :=
    if bool_decide (1 < length args) then
      if bool_decide (arg 1 ∈ statusSet) then (arg 1, "") else ("", arg 1)
    else ("", "") in
  let third : error + string * string :=
    if bool_decide (2 < length args) then
      if decide (status = "") then
        if bool_decide (arg 2 ∈ statusSet) then inr (arg 2, title)
        else if decide (title = "") then inr (status, arg 2)
        else inl (AmbiguousArguments (arg 1) (arg 2) validStatuses)
      else if decide (title = "") then inr (status, arg 2)
      else inr (status, title)
    else inr (status, title) in
  match third with
  | inl e => inl e
  | inr (status, title) =>
      let description := if bool_decide (3 < length args) then arg 3 else "" in
      inr {| p_template := template; p_title := title;
             p_status := status; p_description := description |}
  end.

(** What [createWorkItem] has in its locals when it returns [nil] after
    writing an item. *)
Record Created := {
  c_id : string;
  c_template : string;
  c_title : string;
  c_status : string;
  c_inputs : gmap string string;
  c_content : string;
  c_filename : string;
  c_folder : string;
  c_path : string
}.

(** The two ways [createWorkItem] returns [nil]: after listing the inputs of
    a template ([--help-inputs]), or after writing an item. *)
Inductive Outcome :=
  | Listed
  | Wrote (item : Created).

(** Lines 136-152: the computed fields, then the positional description
    unless a value was supplied for it, then every supplied value. *)
Definition with_description (description : string)
    (inputValues : gmap string string) : gmap string string :=
  if decide (description ≠ "") then
    if decide (is_Some (inputValues !! "description")) then inputValues
    else <["description" := description]> inputValues
  else inputValues.

Definition computed_inputs (nextID title status created : string)
    : gmap string string :=
  <["created" := created]>
    (<["status" := status]> (<["title" := title]> (<["id" := nextID]> ∅))).

(** [for k, v := range inputValues { inputs[k] = v }] *)
Definition copy_into (inputValues inputs : gmap string string)
    : gmap string string :=
  map_fold (λ k v acc, <[k := v]> acc) inputs inputValues.

(** Lines 162-170: prompt for every declared input that has no value yet. *)
Fixpoint prompt_missing (E : Collab) (templateInputs : list Input)
    (inputs : gmap string string) : M (gmap string string) :=
  match templateInputs with
  | [] => mret inputs
  | input :: rest =>
      match inputs !! Name input with
      | Some _ => prompt_missing E rest inputs
      | None =>
          value ← promptForInput E input;
          prompt_missing E rest (<[Name input := value]> inputs)
      end
  end.

(** Lines 91-101 and 108-119: the template and the title once the arguments
    are read. *)
Definition resolve_template (cfg : Config) (helpInputs : bool)
    (template : string) : M string :=
  if decide (template = "") then
    if helpInputs then fail HelpInputsNeedsTemplate
    else selectTemplate cfg
  else mret template.

Definition resolve_title (interactive : bool) (title : string) : M string :=
  if decide (title = "") then
    if interactive then promptString "Enter work item title: "
    else fail TitleRequired
  else mret title.

(** Lines 121-124. *)
Definition resolve_status (cfg : Config) (status : string) : string :=
  if decide (status = "") then DefaultStatus cfg else status.

(** Lines 121-202, from the defaulting of the status to the write. *)
Definition create (E : Collab) (cfg : Config) (validStatuses : list string)
    (interactive : bool) (inputValues : gmap string string)
    (template title status description : string) : M Outcome :=
  let status := resolve_status cfg status in
  if decide (StatusFolders cfg !! status = None) then
    fail (InvalidStatus status validStatuses)
  else
  nextID ← call (GetNextID E) AllocationError;
  created ← gets today;
  let inputs := computed_inputs nextID title status created in
  let inputValues := with_description description inputValues in
  let inputs := copy_into inputValues inputs in
  inputs ←
    (if interactive then
       let templatePath := filepath.Join [".work"; template_file cfg template] in
       templateInputs ←
         call (λ t, GetTemplateInputs E t templatePath) TemplateInputsError;
       prompt_missing E templateInputs inputs
     else mret inputs);
  let templatePath := filepath.Join [".work"; template_file cfg template] in
  content ← call (λ t, ProcessTemplate E t templatePath inputs) TemplateError;
  let filename := item_filename nextID title template in
  match StatusFolders cfg !! status with
  | None => fail (InvalidStatusFolder status)
  | Some statusFolder =>
      if decide (statusFolder = "") then fail (InvalidStatusFolder status)
      else
        let statusFolderPath := filepath.Join [".work"; statusFolder] in
        syscall (λ t, MkdirAll t statusFolderPath) CreationErrorFolder ;;
        let filePath := filepath.Join [statusFolderPath; filename] in
        syscall (λ t, WriteFile t filePath content) CreationErrorFile ;;
        Print ("Created work item " +:+ nextID +:+ " in " +:+ statusFolder
               +:+ String "010" "") ;;
        mret (Wrote {| c_id := nextID; c_template := template;
                       c_title := title; c_status := status;
                       c_inputs := inputs; c_content := content;
                       c_filename := filename; c_folder := statusFolder;
                       c_path := filePath |})
  end.

(** [func createWorkItem(cfg *config.Config, args []string, interactive bool,
    inputValues map[string]string, helpInputs bool) error] *)
Definition createWorkItem (E : Collab) (cfg : Config) (args : list string)
    (interactive : bool) (inputValues : gmap string string)
    (helpInputs : bool) : M Outcome :=
  validStatuses ← range_keys (StatusFolders cfg);
  match parseArgs (dom (StatusFolders cfg)) validStatuses args with
  | inl e => fail e
  | inr p =>
      template ← resolve_template cfg helpInputs (p_template p);
      if helpInputs then
        showTemplateInputs E cfg template ;; mret Listed
      else
        title ← resolve_title interactive (p_title p);
        create E cfg validStatuses interactive inputValues
               template title (p_status p) (p_description p)
  end.

(** ** The identifier allocator *)

Definition item_root : string := ".work".

Definition is_digit (c : ascii) : bool :=
  let n := N_of_ascii c in (48 <=? n)%N && (n <=? 57)%N.

(** The longest prefix of digits, and what follows it. *)
Fixpoint leading_digits (s : string) : string * string :=
  match s with
  | String c r =>
      if is_digit c then
        let '(d, t) := leading_digits r in (String c d, t)
      else ("", s)
  | EmptyString => ("", "")
  end.

(** The identifier of a file name that follows the naming convention, with
    the number of digits it is written with. *)
Definition item_id (name : string) : option (N * nat) :=
  let '(d, rest) := leading_digits name in
  match rest with
  | String "-" _ => (λ v, (v, String.length d)) <$> digits_value d
  | _ => None
  end.

(** A path below the item root. *)
Definition under_root (p : string) : bool :=
  match filepath.split p with
  | r :: _ :: _ => bool_decide (r = item_root)
  | _ => false
  end.

Definition tree_files (t : FS) : list string :=
  List.filter under_root (map_to_list (files t)).*1.

Definition item_ids (t : FS) : list (N * nat) :=
  omap (λ p, item_id (filepath.Base p)) (tree_files t).

Definition max_id (ids : list (N * nat)) : N := foldr N.max 0%N ids.*1.

Definition id_width (ids : list (N * nat)) : nat := foldr Nat.max 3 ids.*2.

(** A decimal, padded with zeros on the left to [width] characters. *)
Definition zero_pad (width : nat) (n : N) : string :=
  let s := Itoa n in Bytes.repeat "0" (width - String.length s) +:+ s.

(** Modelled from the spec: [validation.GetNextID] is called by
    [createWorkItem] but its source is missing.  Section 4.1: every file
    under the item root whose name starts with a numeric identifier followed
    by a hyphen is scanned (other files are skipped), and the result is the
    largest identifier plus one, zero-padded to the width of the existing
    identifiers and to three digits at least; ["001"] when there is no
    item.  The call fails when the tree cannot be read, which here is when
    the item root is no directory. *)
Definition NextID (t : FS) : string + string :=
  if negb (is_dir t item_root) then
    inl ("cannot read " +:+ item_root)
  else
    let ids := item_ids t in
    inr (zero_pad (id_width ids) (max_id ids + 1)).

(** ** The linter *)

Inductive ValidationIssue :=
  | FieldIssue (field message : string)
  | UnreadableFile (cause : string).

Definition issue_text (i : ValidationIssue) : string :=
  match i with
  | FieldIssue field message => field +:+ ": " +:+ message
  | UnreadableFile cause => "cannot read file: " +:+ cause
  end.

(** The files the linter visits: those in or below the folder of a configured
    status whose name follows the naming convention. *)
Definition in_status_folder (cfg : Config) (p : string) : bool :=
  existsb (λ kv, bool_decide
                   (filepath.Join [item_root; kv.2] ∈ filepath.chain (filepath.Dir p)))
          (map_to_list (StatusFolders cfg)).

Definition lint_files (cfg : Config) (t : FS) : list string :=
  List.filter (λ p, in_status_folder cfg p
                    && bool_decide (is_Some (item_id (filepath.Base p))))
              (map_to_list (files t)).*1.

(** The issues of one file: those the item validator finds in its content,
    or the single issue that it cannot be read. *)
Definition file_issues (Validate : Config → string → list ValidationIssue)
    (cfg : Config) (t : FS) (p : string) : list ValidationIssue :=
  if bool_decide (p ∈ unreadable t) then [UnreadableFile p]
  else match files t !! p with
       | Some content => Validate cfg content
       | None => [UnreadableFile p]
       end.

Definition lint_report (Validate : Config → string → list ValidationIssue)
    (cfg : Config) (t : FS) : list (string * list ValidationIssue) :=
  List.filter (λ r, bool_decide (r.2 ≠ []))
    ((λ p, (p, file_issues Validate cfg t p)) <$> lint_files cfg t).

Definition report_entry (r : string * list ValidationIssue) : string :=
  r.1 +:+ ":" +:+ String "010" ""
  +:+ Bytes.concat ((λ i, "  - " +:+ issue_text i +:+ String "010" "") <$> r.2).

(** Modelled from the spec: [lintWorkItems] is exercised by
    [TestLintWorkItems] but its source is missing, as is the item validator
    it runs, which is the parameter [Validate].  Section 4.4: every file is
    validated, the files with at least one issue are collected, and the
    result is one error that carries ["validation failed"] and lists every
    such path with its issues, or no error when no file has an issue. *)
Definition LintAll (Validate : Config → string → list ValidationIssue)
    (cfg : Config) (t : FS) : option string :=
  match lint_report Validate cfg t with
  | [] => None
  | report =>
      Some ("validation failed:" +:+ String "010" ""
            +:+ Bytes.concat (report_entry <$> report))
  end.

(** ** The item validator *)

(** A line [key: value] of the front matter. *)
Definition key_value (line : string) : option (string * string) :=
  match Bytes.split ":" line with
  | key :: v :: more =>
      Some (TrimSpace key, TrimSpace (Bytes.join ":" (v :: more)))
  | _ => None
  end.

(** The lines up to the closing [---]. *)
Fixpoint header_lines (lines : list string) : list string :=
  match lines with
  | [] => []
  | l :: rest =>
      if decide (TrimSpace l = "---") then [] else l :: header_lines rest
  end.

(** The key/value pairs between the first two [---] lines. *)
Definition front_matter (content : string) : list (string * string) :=
  match Bytes.split "010" content with
  | first :: rest =>
      if decide (TrimSpace first = "---") then
        omap key_value (header_lines rest)
      else []
  | [] => []
  end.

Definition field (fm : list (string * string)) (key : string) : string :=
  default "" (snd <$> List.find (λ kv, bool_decide (kv.1 = key)) fm).

Definition all_digits (s : string) : bool :=
  forallb is_digit (list_ascii_of_string s).

(** A date in the layout [2006-01-02]. *)
Definition is_date (s : string) : bool :=
  match Bytes.split "-" s with
  | [y; m; d] =>
      bool_decide (String.length y = 4 ∧ String.length m = 2
                   ∧ String.length d = 2)
      && all_digits y && all_digits m && all_digits d
      && match digits_value m, digits_value d with
         | Some m, Some d =>
             bool_decide (1 ≤ m ≤ 12)%N && bool_decide (1 ≤ d ≤ 31)%N
         | _, _ => false
         end
  | _ => false
  end.

(** Modelled from the spec: the item validator is missing from the sources.
    Section 4.3: the status has to be a configured one, the kind a
    configured one, the creation date a calendar date, the identifier and
    the title present; every violation is reported, other fields are
    ignored. *)
Definition ValidateItem (cfg : Config) (content : string)
    : list ValidationIssue :=
  let fm := front_matter content in
  (if bool_decide (field fm "status" ∈ dom (StatusFolders cfg)) then []
   else [FieldIssue "status" ("invalid status: " +:+ field fm "status")])
  ++ (if bool_decide (field fm "kind" ∈ dom (Templates cfg)) then []
      else [FieldIssue "kind" ("invalid kind: " +:+ field fm "kind")])
  ++ (if is_date (field fm "created") then []
      else [FieldIssue "created" ("invalid date: " +:+ field fm "created")])
  ++ (if decide (field fm "id" = "") then [FieldIssue "id" "missing"] else [])
  ++ (if decide (field fm "title" = "") then [FieldIssue "title" "missing"]
      else []).

(** ** Notions for the statements *)

(** *** Runs *)

(** [quiet m]: running [m] changes neither the tree nor the clock nor the
    iteration order; it may read and print. *)
Definition quiet {A} (m : M A) : Prop :=
  ∀ w, fs (m w).2 = fs w ∧ today (m w).2 = today w
       ∧ range_order (m w).2 = range_order w.

(** [raises P m]: every error [m] returns satisfies [P]. *)
Definition raises {A} (P : error → Prop) (m : M A) : Prop :=
  ∀ w e w', m w = (inl e, w') → P e.

(** The errors of the questions asked on the terminal. *)
Definition asking_error (e : error) : Prop :=
  match e with
  | ReadError _ | InvalidTemplateSelection | InvalidOptionSelection
  | InvalidNumber _ | InvalidDate _ | TitleRequired
  | HelpInputsNeedsTemplate => True
  | _ => False
  end.

(** The item a run has written, if any. *)
Definition written (r : (error + Outcome) * World) : option Created :=
  match r.1 with
  | inr (Wrote item) => Some item
  | _ => None
  end.

(** Several requests one after the other, each with the tree the one
    before left; the result of every one is kept. *)
Fixpoint create_each (E : Collab) (cfg : Config) (requests : list (list string))
    : World → list (error + Outcome) * World :=
  λ w,
    match requests with
    | [] => ([], w)
    | args :: rest =>
        let '(r, w1) := createWorkItem E cfg args false ∅ false w in
        let '(rs, w2) := create_each E cfg rest w1 in
        (r :: rs, w2)
    end.

(** The identifiers of the items that were written. *)
Definition assigned_ids (results : list (error + Outcome)) : list string :=
  omap (λ r, match r with inr (Wrote item) => Some (c_id item) | _ => None end)
       results.

(** *** Requests *)

(** The statuses as the error messages list them. *)
Definition valid_statuses (cfg : Config) (w : World) : list string :=
  range_order w (map_to_list (StatusFolders cfg)).*1.

(** A [range] loop visits every key once. *)
Definition fair_range (w : World) : Prop :=
  ∀ keys, range_order w keys ≡ₚ keys.

(** The input map before any prompt (lines 136-152). *)
Definition base_inputs (inputValues : gmap string string)
    (nextID title status created description : string) : gmap string string :=
  copy_into (with_description description inputValues)
            (computed_inputs nextID title status created).

(** The computed fields, key by key. *)
Definition computed_field (nextID title status created k : string)
    : option string :=
  if decide (k = "id") then Some nextID
  else if decide (k = "title") then Some title
  else if decide (k = "status") then Some status
  else if decide (k = "created") then Some created
  else None.

(** The value of a key by precedence: a supplied value first, then the
    positional description when there is one, then the computed field.
    [positional] tells when the description counts as given. *)
Definition input_by_precedence (positional : Prop) `{!Decision positional}
    (inputValues : gmap string string)
    (description nextID title status created k : string) : option string :=
  match inputValues !! k with
  | Some v => Some v
  | None =>
      if decide (k = "description" ∧ positional) then Some description
      else computed_field nextID title status created k
  end.

(** The order-independence property of a request [template, s, t] for a
    configured status [s] and a title [t] that is no status, of every item
    that gets written; [side] restricts the pairs it is stated for. *)
Definition filed_under_its_status (side : string → string → Prop) : Prop :=
  ∀ E cfg template s t interactive inputValues w item w',
    s ∈ dom (StatusFolders cfg) → t ∉ dom (StatusFolders cfg) → side s t →
    createWorkItem E cfg [template; s; t] interactive inputValues false w
    = (inr (Wrote item), w') →
    c_status item = s ∧ c_title item = t
    ∧ StatusFolders cfg !! s = Some (c_folder item).

(** The precedence property of the input map of every item that gets
    written from four positional arguments; [given d] tells when the
    description [d] counts as given. *)
Definition inputs_follow_precedence (given : string → Prop)
    `{!∀ d, Decision (given d)} : Prop :=
  ∀ E cfg template second third d interactive inputValues w item w' k v,
    createWorkItem E cfg [template; second; third; d] interactive
      inputValues false w = (inr (Wrote item), w') →
    input_by_precedence (given d) inputValues d (c_id item) (c_title item)
      (c_status item) (today w) k = Some v →
    c_inputs item !! k = Some v.

(** *** Plain paths *)

(** A path element that [Clean] keeps as it is: a name without separator
    other than the empty one, [.] and [..]. *)
Definition plain (e : string) : Prop :=
  e ≠ "" ∧ e ≠ "." ∧ e ≠ ".." ∧ Bytes.mem "/" e = false.

(** A relative path made of such elements. *)
Definition plain_path (p : string) : Prop := Forall plain (filepath.split p).

(** A configuration whose status folders are such paths. *)
Definition plain_folders (cfg : Config) : Prop :=
  ∀ status folder,
    StatusFolders cfg !! status = Some folder → plain_path folder.

(** Requests that name their template and whose arguments have no path
    separator. *)
Definition plain_request (args : list string) : Prop :=
  hd "" args ≠ "" ∧ ∀ a, a ∈ args → Bytes.mem "/" a = false.

(** *** Decimals and counted trees *)

(** The powers of ten. *)
Definition pow10 (k : nat) : N := (10 ^ N.of_nat k)%N.

(** A decimal without leading zero. *)
Definition starts_nonzero (d : Decimal.uint) : Prop :=
  match d with
  | Decimal.Nil | Decimal.D0 _ => False
  | _ => True
  end.

(** A tree whose item root can be read and whose largest identifier is
    [n], written like every smaller one with three digits or as many as it
    takes. *)
Definition counted (t : FS) (n : N) : Prop :=
  is_dir t item_root = true
  ∧ max_id (item_ids t) = n
  ∧ id_width (item_ids t) = 3 `max` String.length (Itoa n).

(** *** Terminal and text *)

(** The world after [lines] have been printed, and after one line has been
    read. *)
Definition printed (w : World) (lines : list string) : World :=
  {| fs := fs w; stdin := stdin w; stdout := stdout w ++ lines;
     today := today w; range_order := range_order w |}.

Definition read_line (w : World) : World :=
  {| fs := fs w; stdin := tail (stdin w); stdout := stdout w;
     today := today w; range_order := range_order w |}.

(** The lines [print_numbered] prints, counting from [i + 1]. *)
Fixpoint numbered (i : nat) (entries : list string) : list string :=
  match entries with
  | [] => []
  | entry :: rest =>
      (Itoa (N.of_nat (i + 1)) +:+ ". " +:+ entry +:+ String "010" "")
      :: numbered (S i) rest
  end.

(** A text that does not start with white space. *)
Definition starts_clean (s : string) : Prop :=
  match s with
  | String c _ => Ascii.is_space c = false
  | EmptyString => True
  end.

(** A text without white space at either end. *)
Definition trimmed (s : string) : Prop :=
  starts_clean s ∧ starts_clean (String.rev s).

(** The lines [showTemplateInputs] prints for the inputs of a template. *)
Definition input_type_name (t : InputType) : string :=
  match t with
  | InputString => "string"
  | InputNumber => "number"
  | InputDateTime => "datetime"
  | InputOther n => n
  end.

Definition input_lines (input : Input) : list string :=
  ("- " +:+ Name input +:+ " (" +:+ input_type_name (Type_ input) +:+ "): "
   +:+ Description input +:+ String "010" "")
  :: (if bool_decide (0 < length (Options input))
      then ["  Options: " +:+ Bytes.join ", " (Options input)
            +:+ String "010" ""]
      else []).

Definition inputs_listing (template : string) (inputs : list Input)
    : list string :=
  ("Available inputs for template '" +:+ template +:+ "':" +:+ String "010" "")
  :: concat (input_lines <$> inputs).


(** The names that have a value in the input map before any question is
    asked: the computed fields, the keys of [inputValues], and
    ["description"] when the positional description is not empty. *)
Definition supplied (inputValues : gmap string string)
    (description k : string) : Prop :=
  k ∈ ["id"; "title"; "status"; "created"]
  ∨ is_Some (inputValues !! k)
  ∨ (k = "description" ∧ description ≠ "").

(** The line [createWorkItem] prints after the write. *)
Definition confirmation (nextID statusFolder : string) : string :=
  "Created work item " +:+ nextID +:+ " in " +:+ statusFolder
  +:+ String "010" "".

(** ** An example project *)

Module Example.

Definition cfg : Config := {|
  StatusFolders :=
    list_to_map [("backlog", "0_backlog"); ("todo", "1_todo");
                 ("in-progress", "2_doing"); ("done", "4_done")];
  Templates :=
    list_to_map [("prd", "templates/template.prd.md");
                 ("task", "templates/template.task.md")];
  DefaultStatus := "backlog"
|}.

(** A tree with an item root and no item. *)
Definition tree : FS :=
  {| dirs := {[item_root]}; files := ∅; readonly := ∅; unreadable := ∅ |}.

Definition world : World :=
  {| fs := tree; stdin := []; stdout := []; today := "2024-01-01";
     range_order := id |}.

Definition typing (lines : list string) : World :=
  {| fs := tree; stdin := lines; stdout := []; today := "2024-01-01";
     range_order := id |}.

(** A template engine that writes a front matter out of the input map, with
    the allocator of the specification, and templates that declare one
    free-text input ["description"]. *)
Definition render (inputs : gmap string string) : string :=
  let field k := k +:+ ": " +:+ default "" (inputs !! k) +:+ String "010" "" in
  "---" +:+ String "010" "" +:+ field "id" +:+ field "title"
  +:+ field "status" +:+ field "created" +:+ "---" +:+ String "010" ""
  +:+ default "" (inputs !! "description").

Definition collab : Collab := {|
  GetNextID := NextID;
  GetTemplateInputs := λ _ _,
    inr [ {| Name := "description"; Type_ := InputString;
             Description := "Short description"; Options := [];
             DateFormat := "" |} ];
  ProcessTemplate := λ _ _ inputs, inr (render inputs);
  time_Parse := λ _ _, None
|}.

(** The items of [TestLintWorkItems]. *)
Definition item_text (status : string) : string :=
  Bytes.join (String "010" "")
    ["---"; "id: 001"; "title: Test Feature"; "status: " +:+ status;
     "kind: prd"; "created: 2024-01-01"; "---"; ""; "# Test Feature"; ""].

Definition tree_with (status : string) : FS :=
  {| dirs := {[ item_root; ".work/1_todo" ]};
     files := {[ ".work/1_todo/001-test-feature.prd.md" := item_text status ]};
     readonly := ∅; unreadable := ∅ |}.

End Example.
(** * Properties *)

#[global] Arguments filepath.Join : simpl never.
#[global] Arguments filepath.Clean : simpl never.
#[global] Arguments item_filename : simpl never.
#[global] Arguments MkdirAll : simpl never.
#[global] Arguments WriteFile : simpl never.
#[global] Arguments Error : simpl never.

(** ** Facts about byte strings *)

Section bytes_facts.

Lemma map_map f g s : Bytes.map f (Bytes.map g s) = Bytes.map (λ c, f (g c)) s.
Proof. induction s as [|c s IH]; simpl; [done | by rewrite IH]. Qed.

Lemma map_ext f g s : (∀ c, f c = g c) → Bytes.map f s = Bytes.map g s.
Proof. intros E. induction s as [|c s IH]; simpl; [done | by rewrite E, IH]. Qed.

Lemma map_length f s : String.length (Bytes.map f s) = String.length s.
Proof. induction s as [|c s IH]; simpl; [done | by rewrite IH]. Qed.



Lemma app_cons c (a b : string) : String c a +:+ b = String c (a +:+ b).
Proof. done. Qed.

Lemma app_nil_r s : s +:+ "" = s.
Proof. induction s as [|c s IH]; [done|]. by rewrite app_cons, IH. Qed.

Lemma app_assoc (a b c : string) : (a +:+ b) +:+ c = a +:+ b +:+ c.
Proof. induction a as [|x a IH]; [done|]. by rewrite !app_cons, IH. Qed.

Lemma app_nil_l (s : string) : "" +:+ s = s.
Proof. done. Qed.

Lemma mem_app c a b : Bytes.mem c (a +:+ b) = Bytes.mem c a || Bytes.mem c b.
Proof.
  induction a as [|x a IH]; [done|]. rewrite app_cons. simpl.
  destruct (decide (c = x)); [done | apply IH].
Qed.

Lemma app_length (a b : string) :
  String.length (a +:+ b) = String.length a + String.length b.
Proof. induction a as [|x a IH]; [done|]. rewrite app_cons. simpl. by rewrite IH. Qed.

Lemma contains_refl s : Bytes.contains s s.
Proof. exists "", "". by rewrite app_nil_r. Qed.

Lemma contains_app_l s t sub : Bytes.contains s sub → Bytes.contains (s +:+ t) sub.
Proof.
  intros (pre & post & ->). exists pre, (post +:+ t). by rewrite !app_assoc.
Qed.

Lemma contains_app_r s t sub : Bytes.contains t sub → Bytes.contains (s +:+ t) sub.
Proof.
  intros (pre & post & ->). exists (s +:+ pre), post. by rewrite !app_assoc.
Qed.


Lemma contains_join sep l x : x ∈ l → Bytes.contains (Bytes.join sep l) x.
Proof.
  induction l as [|y l IH]; [by intros ?%elem_of_nil|].
  intros [->|Hx]%elem_of_cons.
  - destruct l; simpl; [apply contains_refl | apply contains_app_l, contains_refl].
  - destruct l as [|z l]; [by apply elem_of_nil in Hx|].
    change (Bytes.join sep (y :: z :: l))
      with (y +:+ sep +:+ Bytes.join sep (z :: l)).
    by apply contains_app_r, contains_app_r, IH.
Qed.


End bytes_facts.

(** ** Facts about [kebabCase] *)

Section kebab_facts.

Lemma kebabCase_map s : kebabCase s = Bytes.map kebab_char s.
Proof.
  unfold kebabCase, ReplaceAll, ToLower. rewrite !map_map.
  apply map_ext. by intros [[] [] [] [] [] [] [] []].
Qed.




Lemma kebabCase_length s : String.length (kebabCase s) = String.length s.
Proof. rewrite kebabCase_map. apply map_length. Qed.

End kebab_facts.


Example Clean_examples :
  filepath.Clean ".work/1_todo/001-a/../b.prd.md" = ".work/1_todo/b.prd.md"
  ∧ filepath.Clean "a//b/./c/" = "a/b/c"
  ∧ filepath.Clean "../../x" = "../../x"
  ∧ filepath.Clean "/../x" = "/x"
  ∧ filepath.Clean "" = "."
  ∧ filepath.Join [".work"; ""] = ".work"
  ∧ filepath.Join [""; "a"; ""; "b"] = "a/b"
  ∧ filepath.Dir ".work/1_todo/x.md" = ".work/1_todo"
  ∧ filepath.Dir "x.md" = "."
  ∧ filepath.Base ".work/1_todo/x.md" = "x.md"
  ∧ filepath.chain ".work/1_todo" = [".work"; ".work/1_todo"].
Proof. by vm_compute. Qed.

(** ** Running commands *)

Section running.

Context {A B : Type}.

Lemma run_bind (m : M A) (f : A → M B) w :
  (m ≫= f) w =
  match m w with
  | (inl e, w') => (inl e, w')
  | (inr a, w') => f a w'
  end.
Proof. done. Qed.

Lemma run_ret (a : A) w : (mret a : M A) w = (inr a, w).
Proof. done. Qed.

End running.

Section quiet_facts.

Lemma quiet_ret {A} (a : A) : quiet (mret a : M A).
Proof. by intros w. Qed.

Lemma quiet_fail {A} e : quiet (fail e : M A).
Proof. by intros w. Qed.

Lemma quiet_gets {A} (f : World → A) : quiet (gets f).
Proof. by intros w. Qed.

Lemma quiet_Print s : quiet (Print s).
Proof. by intros w. Qed.

Lemma quiet_ReadString : quiet ReadString.
Proof. intros w. unfold ReadString. by destruct (stdin w). Qed.

Lemma quiet_call {A} (f : FS → string + A) wrap : quiet (call f wrap).
Proof. intros w. unfold call. by destruct (f (fs w)). Qed.

Lemma quiet_bind {A B} (m : M A) (f : A → M B) :
  quiet m → (∀ a, quiet (f a)) → quiet (m ≫= f).
Proof.
  intros Hm Hf w. rewrite run_bind. specialize (Hm w).
  destruct (m w) as [[e|a] w1]; simpl in *; [done|].
  destruct (Hf a w1) as (-> & -> & ->). done.
Qed.

Lemma quiet_for_each {A} (l : list A) body i :
  (∀ i x, quiet (body i x)) → quiet (for_each i l body).
Proof.
  intros Hb. revert i. induction l as [|x l IH]; intros i; simpl.
  - apply quiet_ret.
  - apply quiet_bind; [apply Hb | intros _; apply IH].
Qed.

Lemma quiet_promptString prompt : quiet (promptString prompt).
Proof.
  apply quiet_bind; [apply quiet_Print | intros _].
  apply quiet_bind; [apply quiet_ReadString | intros ?; apply quiet_ret].
Qed.

Lemma quiet_choose entries invalid : quiet (choose entries invalid).
Proof.
  apply quiet_bind; [apply quiet_ReadString | intros input].
  destruct (Atoi _); [apply quiet_fail|].
  case_bool_decide; [apply quiet_fail|].
  destruct (_ !! _); [apply quiet_ret | apply quiet_fail].
Qed.

Lemma quiet_print_numbered entries : quiet (print_numbered entries).
Proof. apply quiet_for_each. intros; apply quiet_Print. Qed.

Lemma quiet_promptForInput E input : quiet (promptForInput E input).
Proof.
  unfold promptForInput. destruct (Type_ input).
  - case_bool_decide; [|apply quiet_promptString].
    apply quiet_bind; [apply quiet_Print | intros _].
    apply quiet_bind; [apply quiet_print_numbered | intros _].
    apply quiet_bind; [apply quiet_Print | intros _; apply quiet_choose].
  - apply quiet_bind; [apply quiet_Print | intros _].
    apply quiet_bind; [apply quiet_ReadString | intros input'].
    destruct (Atoi _); [apply quiet_fail | apply quiet_ret].
  - apply quiet_bind; [apply quiet_Print | intros _].
    apply quiet_bind; [apply quiet_ReadString | intros input'].
    destruct (time_Parse _ _ _); [apply quiet_fail | apply quiet_ret].
  - apply quiet_promptString.
Qed.

Lemma quiet_selectTemplate cfg : quiet (selectTemplate cfg).
Proof.
  apply quiet_bind; [apply quiet_Print | intros _].
  apply quiet_bind; [apply quiet_gets | intros templates].
  apply quiet_bind; [apply quiet_print_numbered | intros _].
  apply quiet_bind; [apply quiet_Print | intros _; apply quiet_choose].
Qed.

Lemma quiet_showTemplateInputs E cfg template :
  quiet (showTemplateInputs E cfg template).
Proof.
  apply quiet_bind; [apply quiet_call | intros inputs].
  apply quiet_bind; [apply quiet_Print | intros _].
  apply quiet_for_each. intros _ input.
  apply quiet_bind; [apply quiet_Print | intros _].
  case_bool_decide; [apply quiet_Print | apply quiet_ret].
Qed.

Lemma quiet_resolve_template cfg helpInputs template :
  quiet (resolve_template cfg helpInputs template).
Proof.
  unfold resolve_template. case_decide; [|apply quiet_ret].
  destruct helpInputs; [apply quiet_fail | apply quiet_selectTemplate].
Qed.

Lemma quiet_resolve_title interactive title :
  quiet (resolve_title interactive title).
Proof.
  unfold resolve_title. case_decide; [|apply quiet_ret].
  destruct interactive; [apply quiet_promptString | apply quiet_fail].
Qed.

Lemma quiet_prompt_missing E l inputs : quiet (prompt_missing E l inputs).
Proof.
  revert inputs. induction l as [|input l IH]; intros inputs; simpl.
  - apply quiet_ret.
  - destruct (inputs !! Name input); [apply IH|].
    apply quiet_bind; [apply quiet_promptForInput | intros v; apply IH].
Qed.

(** Running a quiet command: the shape used in the proofs below. *)
Lemma quiet_run {A} (m : M A) w r w' :
  quiet m → m w = (r, w') →
  fs w' = fs w ∧ today w' = today w ∧ range_order w' = range_order w.
Proof. intros Hq Hr. specialize (Hq w). by rewrite Hr in Hq. Qed.

End quiet_facts.

(** ** The two system calls *)

Section fs_facts.

Lemma MkdirAll_inr t path t' :
  MkdirAll t path = inr t' →
  files t' = files t ∧ readonly t' = readonly t ∧ unreadable t' = unreadable t
  ∧ dirs t ⊆ dirs t'.
Proof.
  unfold MkdirAll. destruct (is_dir t path); [by intros [= <-]|].
  destruct (existsb _ _); [done|]. destruct (existsb _ _); [done|].
  intros [= <-]. simpl. set_solver.
Qed.

Lemma WriteFile_inr t name data t' :
  WriteFile t name data = inr t' → t' = put_file t name data.
Proof.
  unfold WriteFile. destruct (is_dir t name); [done|].
  destruct (negb (is_dir _ _)); [done|]. destruct (_ && _); [done|].
  by intros [= <-].
Qed.

Lemma syscall_run f wrap w r w' :
  syscall f wrap w = (r, w') →
  (∃ cause, f (fs w) = inl cause ∧ r = inl (wrap cause) ∧ w' = w)
  ∨ (∃ t', f (fs w) = inr t' ∧ r = inr () ∧ fs w' = t'
            ∧ stdin w' = stdin w ∧ stdout w' = stdout w
            ∧ today w' = today w ∧ range_order w' = range_order w).
Proof.
  unfold syscall. destruct (f (fs w)) as [cause|t'].
  - intros [= <- <-]. left. eauto.
  - intros [= <- <-]. right. eauto 10.
Qed.

Lemma call_run {A} (f : FS → string + A) wrap w r w' :
  call f wrap w = (r, w') →
  w' = w ∧ ((∃ cause, f (fs w) = inl cause ∧ r = inl (wrap cause))
            ∨ (∃ a, f (fs w) = inr a ∧ r = inr a)).
Proof.
  unfold call. destruct (f (fs w)) as [cause|a]; intros [= <- <-]; eauto.
Qed.

End fs_facts.

(** ** The errors a command can return *)

Section raises_facts.

Context (P : error → Prop).

Lemma raises_ret {A} (a : A) : raises P (mret a : M A).
Proof. by intros w e w'. Qed.

Lemma raises_fail {A} e : P e → raises P (fail e : M A).
Proof. by intros He w e' w' [= <- _]. Qed.

Lemma raises_Print s : raises P (Print s).
Proof. by intros w e w'. Qed.

Lemma raises_gets {A} (f : World → A) : raises P (gets f).
Proof. by intros w e w'. Qed.

Lemma raises_bind {A B} (m : M A) (f : A → M B) :
  raises P m → (∀ a, raises P (f a)) → raises P (m ≫= f).
Proof.
  intros Hm Hf w e w'. rewrite run_bind.
  destruct (m w) as [[e0|a] w1] eqn:Hrun.
  - intros [= <- <-]. by eapply Hm.
  - apply Hf.
Qed.

Lemma raises_for_each {A} (l : list A) body i :
  (∀ i x, raises P (body i x)) → raises P (for_each i l body).
Proof.
  intros Hb. revert i. induction l as [|x l IH]; intros i; simpl.
  - apply raises_ret.
  - apply raises_bind; [apply Hb | intros _; apply IH].
Qed.

End raises_facts.

Section asking.

Lemma raises_ReadString : raises asking_error ReadString.
Proof.
  intros w e w'. unfold ReadString. destruct (stdin w); [|done].
  by intros [= <- _].
Qed.

Lemma raises_promptString prompt : raises asking_error (promptString prompt).
Proof.
  apply raises_bind; [apply raises_Print | intros _].
  apply raises_bind; [apply raises_ReadString | intros ?; apply raises_ret].
Qed.

Lemma raises_choose entries invalid :
  asking_error invalid → raises asking_error (choose entries invalid).
Proof.
  intros Hinv. apply raises_bind; [apply raises_ReadString | intros input].
  destruct (Atoi _); [by apply raises_fail|].
  case_bool_decide; [by apply raises_fail|].
  destruct (_ !! _); [apply raises_ret | by apply raises_fail].
Qed.

Lemma raises_print_numbered P entries : raises P (print_numbered entries).
Proof. apply raises_for_each. intros; apply raises_Print. Qed.

Lemma raises_promptForInput E input :
  raises asking_error (promptForInput E input).
Proof.
  unfold promptForInput. destruct (Type_ input).
  - case_bool_decide; [|apply raises_promptString].
    apply raises_bind; [apply raises_Print | intros _].
    apply raises_bind; [apply raises_print_numbered | intros _].
    apply raises_bind; [apply raises_Print | intros _].
    by apply raises_choose.
  - apply raises_bind; [apply raises_Print | intros _].
    apply raises_bind; [apply raises_ReadString | intros input'].
    destruct (Atoi _); [by apply raises_fail | apply raises_ret].
  - apply raises_bind; [apply raises_Print | intros _].
    apply raises_bind; [apply raises_ReadString | intros input'].
    destruct (time_Parse _ _ _); [by apply raises_fail | apply raises_ret].
  - apply raises_promptString.
Qed.

Lemma raises_selectTemplate cfg : raises asking_error (selectTemplate cfg).
Proof.
  apply raises_bind; [apply raises_Print | intros _].
  apply raises_bind; [apply raises_gets | intros templates].
  apply raises_bind; [apply raises_print_numbered | intros _].
  apply raises_bind; [apply raises_Print | intros _].
  by apply raises_choose.
Qed.

Lemma raises_resolve_template cfg helpInputs template :
  raises asking_error (resolve_template cfg helpInputs template).
Proof.
  unfold resolve_template. case_decide; [|apply raises_ret].
  destruct helpInputs; [by apply raises_fail | apply raises_selectTemplate].
Qed.

Lemma raises_resolve_title interactive title :
  raises asking_error (resolve_title interactive title).
Proof.
  unfold resolve_title. case_decide; [|apply raises_ret].
  destruct interactive; [apply raises_promptString | by apply raises_fail].
Qed.

Lemma raises_prompt_missing E l inputs :
  raises asking_error (prompt_missing E l inputs).
Proof.
  revert inputs. induction l as [|input l IH]; intros inputs; simpl.
  - apply raises_ret.
  - destruct (inputs !! Name input); [apply IH|].
    apply raises_bind; [apply raises_promptForInput | intros v; apply IH].
Qed.

Lemma resolve_template_given cfg helpInputs template w :
  template ≠ "" →
  resolve_template cfg helpInputs template w = (inr template, w).
Proof. intros. unfold resolve_template. by rewrite decide_False. Qed.

Lemma resolve_title_given interactive title w :
  title ≠ "" → resolve_title interactive title w = (inr title, w).
Proof. intros. unfold resolve_title. by rewrite decide_False. Qed.

End asking.

(** ** [create]: from the status to the write *)

Section create_facts.

Context (E : Collab) (cfg : Config) (validStatuses : list string).
Context (interactive : bool) (inputValues : gmap string string).
Context (template title status description : string).

Let run := create E cfg validStatuses interactive inputValues
                  template title status description.
Let st := resolve_status cfg status.
Let templatePath := filepath.Join [".work"; template_file cfg template].

Lemma create_wrote w item w' :
  run w = (inr (Wrote item), w') →
  ∃ folder t1 w1,
    c_template item = template ∧ c_title item = title ∧ c_status item = st
    ∧ GetNextID E (fs w) = inr (c_id item)
    ∧ StatusFolders cfg !! st = Some folder ∧ folder ≠ ""
    ∧ c_folder item = folder
    ∧ c_filename item = item_filename (c_id item) title template
    ∧ c_path item =
        filepath.Join [filepath.Join [".work"; folder]; c_filename item]
    ∧ (if interactive then
         ∃ tis, GetTemplateInputs E (fs w) templatePath = inr tis
                ∧ prompt_missing E tis
                    (base_inputs inputValues (c_id item) title st (today w)
                                 description) w
                  = (inr (c_inputs item), w1)
       else c_inputs item
            = base_inputs inputValues (c_id item) title st (today w) description)
    ∧ ProcessTemplate E (fs w) templatePath (c_inputs item)
      = inr (c_content item)
    ∧ MkdirAll (fs w) (filepath.Join [".work"; folder]) = inr t1
    ∧ WriteFile t1 (c_path item) (c_content item) = inr (fs w').
Proof.
  unfold run, create. fold st. fold templatePath.
  case_decide as Hst; [done|].
  rewrite run_bind.
  destruct (call (GetNextID E) AllocationError w) as [[e|nextID] w0] eqn:Hid;
    [done|].
  apply call_run in Hid as (-> & [(? & _ & [=])|(? & Hid & [= <-])]).
  rewrite run_bind. unfold gets at 1. cbv beta iota. rewrite run_bind.
  fold (base_inputs inputValues nextID title st (today w) description).
  set (base := base_inputs _ _ _ _ _ _).
  lazymatch goal with
  | |- match ?x with _ => _ end = _ → _ =>
      destruct x as [[e|inputs] w1] eqn:Hin; [done|]
  end.
  assert (fs w1 = fs w ∧
          if interactive then
            ∃ tis, GetTemplateInputs E (fs w) templatePath = inr tis
                   ∧ prompt_missing E tis base w = (inr inputs, w1)
          else inputs = base) as [Hfs Hinputs].
  { destruct interactive.
    - rewrite run_bind in Hin.
      destruct (call _ _ w) as [[e|tis] w0] eqn:Htis; [done|].
      apply call_run in Htis as (-> & [(? & _ & [=])|(? & Htis & [= <-])]).
      split; [|eauto].
      by eapply quiet_run in Hin as [? _]; [|apply quiet_prompt_missing].
    - by injection Hin as <- <-. }
  rewrite run_bind.
  destruct (call _ _ w1) as [[e|content] w2] eqn:Hcontent; [done|].
  apply call_run in Hcontent as (-> & [(? & _ & [=])|(? & Hcontent & [= <-])]).
  rewrite Hfs in Hcontent.
  destruct (StatusFolders cfg !! st) as [folder|] eqn:Hfolder; [|done].
  case_decide as Hne; [done|].
  rewrite run_bind.
  destruct (syscall _ _ w1) as [[e|[]] w2] eqn:Hmk; [done|].
  apply syscall_run in Hmk
    as [(? & _ & [=] & _)|(t1 & Hmk & _ & Hfs2 & _)].
  rewrite Hfs in Hmk. rewrite run_bind.
  destruct (syscall _ _ w2) as [[e|[]] w3] eqn:Hwr; [done|].
  apply syscall_run in Hwr
    as [(? & _ & [=] & _)|(t2 & Hwr & _ & Hfs3 & _)].
  rewrite Hfs2 in Hwr. rewrite run_bind. unfold Print at 1. cbv beta iota.
  intros [= <- <-]. simpl.
  exists folder, t1, w1. rewrite Hfs3. by repeat split.
Qed.


Lemma create_not_listed w w' : run w ≠ (inr Listed, w').
Proof.
  unfold run, create. fold st. fold templatePath.
  case_decide as Hst; [done|].
  rewrite run_bind. destruct (call _ _ w) as [[e|nextID] w0]; [done|].
  rewrite run_bind. unfold gets at 1. cbv beta iota. rewrite run_bind.
  lazymatch goal with
  | |- match ?x with _ => _ end ≠ _ => destruct x as [[e|inputs] w1]; [done|]
  end.
  rewrite run_bind. destruct (call _ _ w1) as [[e|content] w2]; [done|].
  destruct (StatusFolders cfg !! st) as [folder|]; [|done].
  case_decide; [done|].
  rewrite run_bind. destruct (syscall _ _ w2) as [[e|[]] w3]; [done|].
  rewrite run_bind. destruct (syscall _ _ w3) as [[e|[]] w4]; [done|].
  done.
Qed.

Lemma create_error w e w' :
  run w = (inl e, w') →
  files (fs w') = files (fs w)
  ∧ (fs w' = fs w
     ∨ ∃ cause folder,
         e = CreationErrorFile cause
         ∧ StatusFolders cfg !! st = Some folder ∧ folder ≠ ""
         ∧ MkdirAll (fs w) (filepath.Join [".work"; folder]) = inr (fs w')).
Proof.
  unfold run, create. fold st. fold templatePath.
  case_decide as Hst; [by intros [= <- <-]; auto|].
  rewrite run_bind.
  destruct (call (GetNextID E) AllocationError w) as [[e0|nextID] w0] eqn:Hid.
  { apply call_run in Hid as [-> _]. intros [= <- <-]; auto. }
  apply call_run in Hid as [-> _].
  rewrite run_bind. unfold gets at 1. cbv beta iota. rewrite run_bind.
  lazymatch goal with
  | |- match ?x with _ => _ end = _ → _ =>
      destruct x as [[e0|inputs] w1] eqn:Hin
  end.
  all: assert (fs w1 = fs w) as Hfs.
  1,3: eapply quiet_run in Hin as [? _]; [done|];
       destruct interactive; [|apply quiet_ret];
       apply quiet_bind; [apply quiet_call|];
       intros; apply quiet_prompt_missing.
  { intros [= <- <-]. rewrite Hfs. auto. }
  rewrite run_bind.
  destruct (call _ _ w1) as [[e0|content] w2] eqn:Hcontent;
    apply call_run in Hcontent as [-> _].
  { intros [= <- <-]. rewrite Hfs. auto. }
  destruct (StatusFolders cfg !! st) as [folder|] eqn:Hfolder;
    [|by intros [= <- <-]; rewrite Hfs; auto].
  case_decide as Hne; [by intros [= <- <-]; rewrite Hfs; auto|].
  rewrite run_bind.
  destruct (syscall _ _ w1) as [[e0|[]] w2] eqn:Hmk;
    apply syscall_run in Hmk
      as [(? & _ & [=] & Hw)|(t1 & Hmk & [=] & Hfs2 & _)].
  { subst w2. intros [= <- <-]. rewrite Hfs. auto. }
  rewrite Hfs in Hmk. rewrite run_bind.
  destruct (syscall _ _ w2) as [[e0|[]] w3] eqn:Hwr;
    apply syscall_run in Hwr
      as [(cause & _ & [=] & Hw)|(t2 & Hwr & [=] & Hfs3 & _)].
  - subst w3 e0. intros [= <- <-]. rewrite Hfs2.
    apply MkdirAll_inr in Hmk as Hsame. split; [apply Hsame|].
    right. eauto 10.
  - rewrite run_bind. unfold Print at 1. cbv beta iota. done.
Qed.

(** The only error of [create] that names a status as invalid is the first
    one, about the status after defaulting. *)
Lemma create_invalid_status w s valid w' :
  run w = (inl (InvalidStatus s valid), w') →
  s = st ∧ valid = validStatuses ∧ w' = w ∧ StatusFolders cfg !! st = None.
Proof.
  unfold run, create. fold st. fold templatePath.
  case_decide as Hst; [by intros [= <- <- <-]|].
  rewrite run_bind.
  destruct (call (GetNextID E) AllocationError w) as [[e0|nextID] w0] eqn:Hid.
  { apply call_run in Hid as [_ [(? & _ & [= ->])|(? & _ & [=])]]. done. }
  apply call_run in Hid as [-> _].
  rewrite run_bind. unfold gets at 1. cbv beta iota. rewrite run_bind.
  lazymatch goal with
  | |- match ?x with _ => _ end = _ → _ =>
      destruct x as [[e0|inputs] w1] eqn:Hin
  end.
  { intros [= -> _]. exfalso. revert Hin.
    destruct interactive; [|done]. rewrite run_bind.
    destruct (call _ _ w) as [[e1|tis] w0] eqn:Htis.
    - apply call_run in Htis as [_ [(? & _ & [= ->])|(? & _ & [=])]]. done.
    - intros Hin. by apply raises_prompt_missing in Hin. }
  rewrite run_bind.
  destruct (call _ _ w1) as [[e0|content] w2] eqn:Hcontent.
  { apply call_run in Hcontent as [_ [(? & _ & [= ->])|(? & _ & [=])]]. done. }
  destruct (StatusFolders cfg !! st) as [folder|]; [|done].
  case_decide; [done|].
  rewrite run_bind.
  destruct (syscall _ _ w2) as [[e0|[]] w3] eqn:Hmk.
  { apply syscall_run in Hmk as [(? & _ & [= ->] & _)|(? & _ & [=] & _)]. done. }
  rewrite run_bind.
  destruct (syscall _ _ w3) as [[e0|[]] w4] eqn:Hwr.
  { apply syscall_run in Hwr as [(? & _ & [= ->] & _)|(? & _ & [=] & _)]. done. }
  done.
Qed.

End create_facts.

(** ** [createWorkItem] as a whole *)

Section command_facts.

Context (E : Collab) (cfg : Config) (args : list string).
Context (interactive : bool) (inputValues : gmap string string).

Lemma createWorkItem_unfold helpInputs w :
  createWorkItem E cfg args interactive inputValues helpInputs w =
  match parseArgs (dom (StatusFolders cfg)) (valid_statuses cfg w) args with
  | inl e => (inl e, w)
  | inr p =>
      match resolve_template cfg helpInputs (p_template p) w with
      | (inl e, w1) => (inl e, w1)
      | (inr template, w1) =>
          if helpInputs then
            (showTemplateInputs E cfg template ;; mret Listed) w1
          else
            match resolve_title interactive (p_title p) w1 with
            | (inl e, w2) => (inl e, w2)
            | (inr title, w2) =>
                create E cfg (valid_statuses cfg w) interactive inputValues
                       template title (p_status p) (p_description p) w2
            end
      end
  end.
Proof.
  unfold createWorkItem. rewrite run_bind. unfold range_keys, gets at 1.
  cbv beta iota. fold (valid_statuses cfg w).
  destruct (parseArgs _ _ _) as [e|p]; [done|].
  rewrite run_bind.
  destruct (resolve_template _ _ _ w) as [[e|template] w1]; [done|].
  destruct helpInputs; [done|]. by rewrite run_bind.
Qed.

Lemma createWorkItem_wrote helpInputs w item w' :
  createWorkItem E cfg args interactive inputValues helpInputs w
  = (inr (Wrote item), w') →
  helpInputs = false
  ∧ ∃ p w1 w2,
      parseArgs (dom (StatusFolders cfg)) (valid_statuses cfg w) args = inr p
      ∧ resolve_template cfg false (p_template p) w
        = (inr (c_template item), w1)
      ∧ resolve_title interactive (p_title p) w1 = (inr (c_title item), w2)
      ∧ create E cfg (valid_statuses cfg w) interactive inputValues
               (c_template item) (c_title item) (p_status p)
               (p_description p) w2
        = (inr (Wrote item), w').
Proof.
  rewrite createWorkItem_unfold.
  destruct (parseArgs _ _ _) as [e0|p]; [done|].
  destruct (resolve_template _ _ _ w) as [[e0|template] w1] eqn:Htpl; [done|].
  destruct helpInputs.
  { rewrite run_bind. by destruct (showTemplateInputs _ _ _ w1) as [[?|[]] ?]. }
  destruct (resolve_title _ _ w1) as [[e0|title] w2] eqn:Htitle; [done|].
  intros Hrun. split; [done|].
  apply create_wrote in Hrun as Hitem.
  destruct Hitem as (? & ? & ? & -> & -> & _).
  by exists p, w1, w2.
Qed.

End command_facts.

(** ** Errors leave no item behind *)

(** The files after an error, and what may have changed besides. *)
Lemma error_keeps_files E cfg args interactive inputValues helpInputs
    w e w' :
  createWorkItem E cfg args interactive inputValues helpInputs w = (inl e, w') →
  files (fs w') = files (fs w)
  ∧ (fs w' = fs w
     ∨ ∃ cause status folder,
         e = CreationErrorFile cause
         ∧ StatusFolders cfg !! status = Some folder
         ∧ MkdirAll (fs w) (filepath.Join [".work"; folder]) = inr (fs w')).
Proof.
  rewrite createWorkItem_unfold.
  destruct (parseArgs _ _ _) as [e0|p]; [by intros [= <- <-]; auto|].
  destruct (resolve_template _ _ _ w) as [[e0|template] w1] eqn:Htpl;
    eapply quiet_run in Htpl as (Hfs1 & _);
    try apply quiet_resolve_template.
  { intros [= <- <-]. rewrite Hfs1. auto. }
  destruct helpInputs.
  { rewrite run_bind.
    destruct (showTemplateInputs _ _ _ w1) as [[e0|[]] w2] eqn:Hshow;
      eapply quiet_run in Hshow as (Hfs2 & _);
      try apply quiet_showTemplateInputs; [|done].
    intros [= <- <-]. rewrite Hfs2, Hfs1. auto. }
  destruct (resolve_title _ _ w1) as [[e0|title] w2] eqn:Htitle;
    eapply quiet_run in Htitle as (Hfs2 & _);
    try apply quiet_resolve_title.
  { intros [= <- <-]. rewrite Hfs2, Hfs1. auto. }
  intros Hrun. apply create_error in Hrun as [Hfiles Hrun].
  rewrite Hfs2, Hfs1 in Hfiles, Hrun. split; [done|].
  destruct Hrun as [?|(cause & folder & ? & ? & _ & ?)]; [by left|].
  right. eauto 10.
Qed.



(** ** The positional arguments *)

Section positional.

Context (D : gset string) (valid : list string).

Lemma parseArgs_status args p :
  parseArgs D valid args = inr p → p_status p = "" ∨ p_status p ∈ D.
Proof.
  unfold parseArgs.
  repeat (case_bool_decide || case_decide); intros [= <-]; simpl; auto.
Qed.

(** Status first, title second. *)
Lemma parseArgs_status_title template s t rest :
  s ∈ D → t ∉ D →
  parseArgs D valid (template :: s :: t :: rest)
  = inr {| p_template := template; p_title := t; p_status := s;
           p_description := hd "" rest |}.
Proof.
  intros Hs Ht.
  destruct rest; unfold parseArgs; simpl;
    repeat (case_bool_decide || case_decide);
    simpl in *; subst; try done; try lia.
Qed.


(** Neither is a status, and the second argument has taken the title. *)
Lemma parseArgs_ambiguous template second third rest :
  second ∉ D → third ∉ D → second ≠ "" →
  parseArgs D valid (template :: second :: third :: rest)
  = inl (AmbiguousArguments second third valid).
Proof.
  intros H2 H3 Hne.
  destruct rest; unfold parseArgs; simpl;
    repeat (case_bool_decide || case_decide);
    simpl in *; subst; try done; try lia.
Qed.

(** Neither is a status, but the second argument is empty: the third one is
    the title. *)
Lemma parseArgs_empty_second template third rest :
  "" ∉ D → third ∉ D →
  parseArgs D valid (template :: "" :: third :: rest)
  = inr {| p_template := template; p_title := third; p_status := "";
           p_description := hd "" rest |}.
Proof.
  intros H2 H3.
  destruct rest; unfold parseArgs; simpl;
    repeat (case_bool_decide || case_decide);
    simpl in *; subst; try done; try lia.
Qed.

End positional.

Lemma elem_of_valid_statuses cfg w s :
  fair_range w → s ∈ dom (StatusFolders cfg) → s ∈ valid_statuses cfg w.
Proof.
  intros Hfair [folder Hs]%elem_of_dom. unfold valid_statuses.
  rewrite (Hfair _). apply list_elem_of_fmap. exists (s, folder).
  split; [done|]. by apply elem_of_map_to_list.
Qed.

(** C4. With three positional arguments or more, when neither the second nor
    the third one is a configured status and the second one has taken the
    title (it is not empty, so the third one was expected to be a status),
    the command fails at once, with nothing read, printed or written.  The
    message of the error quotes both arguments and every configured
    status. *)
Theorem ambiguous_arguments_fail E cfg template second third rest
    interactive inputValues helpInputs w :
  second ∉ dom (StatusFolders cfg) →
  third ∉ dom (StatusFolders cfg) →
  second ≠ "" →
  fair_range w →
  let e := AmbiguousArguments second third (valid_statuses cfg w) in
  createWorkItem E cfg (template :: second :: third :: rest)
    interactive inputValues helpInputs w = (inl e, w)
  ∧ Bytes.contains (Error e) ("'" +:+ second +:+ "'")
  ∧ Bytes.contains (Error e) ("'" +:+ third +:+ "'")
  ∧ ∀ s, s ∈ dom (StatusFolders cfg) → Bytes.contains (Error e) s.
Proof.
  intros H2 H3 Hne Hfair e. split; [|split; [|split]].
  - rewrite createWorkItem_unfold.
    by rewrite parseArgs_ambiguous.
  - exists "invalid status: neither ",
      (" nor '" +:+ third +:+ "' is a valid status (valid: "
       +:+ Bytes.join ", " (valid_statuses cfg w) +:+ ")").
    unfold e, Error. by rewrite !app_assoc.
  - exists ("invalid status: neither '" +:+ second +:+ "' nor "),
      (" is a valid status (valid: "
       +:+ Bytes.join ", " (valid_statuses cfg w) +:+ ")").
    unfold e, Error. by rewrite !app_assoc.
  - intros s Hs. unfold e, Error.
    do 5 apply contains_app_r. apply contains_app_l.
    by apply contains_join, elem_of_valid_statuses.
Qed.

Lemma ambiguous_arguments_fail_witness :
  ("Fix bug" ∉ dom (StatusFolders Example.cfg))
  ∧ ("Urgent" ∉ dom (StatusFolders Example.cfg))
  ∧ (let e := AmbiguousArguments "Fix bug" "Urgent"
                (valid_statuses Example.cfg Example.world) in
     createWorkItem Example.collab Example.cfg ["prd"; "Fix bug"; "Urgent"]
       false ∅ false Example.world = (inl e, Example.world)
     ∧ Bytes.contains (Error e) "'Fix bug'"
     ∧ Bytes.contains (Error e) "'Urgent'"
     ∧ ∀ s, s ∈ dom (StatusFolders Example.cfg) → Bytes.contains (Error e) s).
Proof.
  assert ("Fix bug" ∉ dom (StatusFolders Example.cfg)) as H2 by by vm_compute.
  assert ("Urgent" ∉ dom (StatusFolders Example.cfg)) as H3 by by vm_compute.
  split; [done|]. split; [done|].
  apply (ambiguous_arguments_fail Example.collab Example.cfg "prd"
           "Fix bug" "Urgent" [] false ∅ false Example.world H2 H3).
  - done.
  - by intros keys.
Defined.

(** ** The status *)

(** C6. When the positional arguments give no status, the status of the
    request is the default one of the configuration: an item that is
    written carries it and lies in its folder, a complaint about the status
    names it, and the whole run is the one of a request for the default
    status. *)
Theorem default_status E cfg args interactive inputValues helpInputs w p :
  parseArgs (dom (StatusFolders cfg)) (valid_statuses cfg w) args = inr p →
  p_status p = "" →
  resolve_status cfg (p_status p) = DefaultStatus cfg
  ∧ (∀ item w',
       createWorkItem E cfg args interactive inputValues helpInputs w
       = (inr (Wrote item), w') →
       c_status item = DefaultStatus cfg
       ∧ StatusFolders cfg !! DefaultStatus cfg = Some (c_folder item))
  ∧ (∀ s valid w',
       createWorkItem E cfg args interactive inputValues helpInputs w
       = (inl (InvalidStatus s valid), w') →
       s = DefaultStatus cfg)
  ∧ (∀ valid template title w2,
       create E cfg valid interactive inputValues template title
              (p_status p) (p_description p) w2
       = create E cfg valid interactive inputValues template title
                (DefaultStatus cfg) (p_description p) w2).
Proof.
  intros Hp Hs.
  assert (resolve_status cfg (p_status p) = DefaultStatus cfg) as Hst.
  { unfold resolve_status. by rewrite Hs, decide_True. }
  split; [done|]. split; [|split].
  - intros item w' Hrun.
    apply createWorkItem_wrote in Hrun as (_ & p' & w1 & w2 & Hp' & _ & _ & Hrun).
    rewrite Hp in Hp'. injection Hp' as <-.
    apply create_wrote in Hrun
      as (folder & _ & _ & _ & _ & Hstatus & _ & Hfolder & _ & <- & _).
    by rewrite Hstatus, <-Hst.
  - intros s valid w'. rewrite createWorkItem_unfold, Hp.
    destruct (resolve_template _ _ _ w) as [[e0|template] w1] eqn:Htpl.
    { intros [= -> _]. by apply raises_resolve_template in Htpl. }
    destruct helpInputs.
    { rewrite run_bind.
      destruct (showTemplateInputs _ _ _ w1) as [[e0|[]] w2] eqn:Hshow; [|done].
      intros [= -> _]. revert Hshow. unfold showTemplateInputs.
      rewrite run_bind.
      destruct (call _ _ w1) as [[e1|ins] w0] eqn:Hins.
      - apply call_run in Hins as [_ [(? & _ & [= ->])|(? & _ & [=])]]. done.
      - intros Hshow. eapply (raises_bind (λ _, False)) in Hshow; [done| |].
        + apply raises_Print.
        + intros _. apply raises_for_each. intros _ input.
          apply raises_bind; [apply raises_Print | intros _].
          case_bool_decide; [apply raises_Print | apply raises_ret]. }
    destruct (resolve_title _ _ w1) as [[e0|title] w2] eqn:Htitle.
    { intros [= -> _]. by apply raises_resolve_title in Htitle. }
    intros Hrun. apply create_invalid_status in Hrun as (-> & _). done.
  - intros valid template title w2. unfold create. rewrite Hst.
    assert (resolve_status cfg (DefaultStatus cfg) = DefaultStatus cfg) as ->;
      [|done].
    unfold resolve_status. by case_decide.
Qed.

Lemma default_status_witness :
  ∃ p item w',
    parseArgs (dom (StatusFolders Example.cfg))
      (valid_statuses Example.cfg Example.world) ["prd"; "Fix bug"] = inr p
    ∧ p_status p = ""
    ∧ createWorkItem Example.collab Example.cfg ["prd"; "Fix bug"]
        false ∅ false Example.world = (inr (Wrote item), w')
    ∧ c_status item = "backlog"
    ∧ c_path item = ".work/0_backlog/001-fix-bug.prd.md"
    ∧ resolve_status Example.cfg (p_status p) = DefaultStatus Example.cfg.
Proof.
  eexists _, _, _. split; [by vm_compute|]. split; [done|].
  split; [by vm_compute|]. split; [done|]. split; [done|].
  refine (proj1 (default_status Example.collab Example.cfg
                   ["prd"; "Fix bug"] false ∅ false Example.world _ _ _)).
  - by vm_compute.
  - done.
Defined.

(** C7. When the template and the title of a request are settled and its
    status, after defaulting, is not a key of the status folders, the
    command fails with the error that names this status as invalid, and the
    tree is as it was.  Such a status is always the default one, since a
    positional status was found among the keys. *)
Theorem invalid_status_fails E cfg args interactive inputValues w
    p template w1 title w2 :
  parseArgs (dom (StatusFolders cfg)) (valid_statuses cfg w) args = inr p →
  resolve_template cfg false (p_template p) w = (inr template, w1) →
  resolve_title interactive (p_title p) w1 = (inr title, w2) →
  StatusFolders cfg !! resolve_status cfg (p_status p) = None →
  createWorkItem E cfg args interactive inputValues false w
  = (inl (InvalidStatus (resolve_status cfg (p_status p))
                        (valid_statuses cfg w)), w2)
  ∧ fs w2 = fs w
  ∧ resolve_status cfg (p_status p) = DefaultStatus cfg.
Proof.
  intros Hp Htpl Htitle Hst. split; [|split].
  - rewrite createWorkItem_unfold, Hp, Htpl, Htitle.
    unfold create. by rewrite decide_True.
  - eapply quiet_run in Htpl as (Hfs1 & _); [|apply quiet_resolve_template].
    eapply quiet_run in Htitle as (Hfs2 & _); [|apply quiet_resolve_title].
    congruence.
  - unfold resolve_status in *. case_decide as Hempty; [done|].
    apply parseArgs_status in Hp as [Hs|Hs]; [done|].
    apply elem_of_dom in Hs as [folder Hs]. congruence.
Qed.

(** A request without a positional status under a configuration whose
    default status has no folder. *)
Lemma invalid_status_fails_witness :
  let cfg := {| StatusFolders := StatusFolders Example.cfg;
                Templates := Templates Example.cfg;
                DefaultStatus := "someday" |} in
  ∃ p,
    parseArgs (dom (StatusFolders cfg)) (valid_statuses cfg Example.world)
      ["prd"; "Fix bug"] = inr p
    ∧ StatusFolders cfg !! resolve_status cfg (p_status p) = None
    ∧ createWorkItem Example.collab cfg ["prd"; "Fix bug"] false ∅ false
        Example.world
      = (inl (InvalidStatus "someday"
                (valid_statuses cfg Example.world)), Example.world)
    ∧ Error (InvalidStatus "someday" (valid_statuses cfg Example.world))
      = "invalid status 'someday' (valid: in-progress, backlog, todo, done)".
Proof.
  intros cfg.
  set (p := {| p_template := "prd"; p_title := "Fix bug"; p_status := "";
               p_description := "" |}).
  exists p. split; [by vm_compute|]. split; [by vm_compute|].
  split; [|by vm_compute].
  refine (proj1 (invalid_status_fails Example.collab cfg ["prd"; "Fix bug"]
                   false ∅ Example.world p "prd" Example.world "Fix bug"
                   Example.world _ _ _ _)); by vm_compute.
Defined.

(** A status whose folder is the empty string is refused as well, after the
    identifier and the content were obtained; the tree is as it was. *)
Lemma empty_folder_fails E cfg valid interactive inputValues
    template title status description w r w' :
  StatusFolders cfg !! resolve_status cfg status = Some "" →
  create E cfg valid interactive inputValues template title status
         description w = (r, w') →
  (∃ e, r = inl e) ∧ fs w' = fs w.
Proof.
  intros Hfolder Hrun. destruct r as [e|[|item]].
  - split; [eauto|].
    apply create_error in Hrun as [_ [?|(? & folder & _ & Hf & Hne & _)]];
      [done|].
    congruence.
  - by apply create_not_listed in Hrun.
  - apply create_wrote in Hrun
      as (folder & ? & ? & _ & _ & _ & _ & Hf & Hne & _).
    congruence.
Qed.

(** ** The input map *)

Section inputs.

Lemma copy_into_lookup (inputValues inputs : gmap string string) k :
  copy_into inputValues inputs !! k
  = match inputValues !! k with
    | Some v => Some v
    | None => inputs !! k
    end.
Proof.
  unfold copy_into.
  apply (map_fold_weak_ind
           (λ r (m : gmap string string),
              r !! k = match m !! k with Some v => Some v | None => inputs !! k end)).
  - by rewrite lookup_empty.
  - intros i x m r Hi IH. destruct (decide (i = k)) as [->|Hne].
    + by rewrite !lookup_insert_eq.
    + by rewrite !lookup_insert_ne.
Qed.

Lemma computed_inputs_lookup nextID title status created k :
  computed_inputs nextID title status created !! k
  = computed_field nextID title status created k.
Proof.
  unfold computed_inputs, computed_field.
  repeat (case_decide; [subst; by simplify_map_eq|]).
  by rewrite !lookup_insert_ne, lookup_empty.
Qed.

Lemma with_description_lookup description (inputValues : gmap string string) k :
  with_description description inputValues !! k
  = match inputValues !! k with
    | Some v => Some v
    | None => if decide (k = "description" ∧ description ≠ "")
              then Some description else None
    end.
Proof.
  unfold with_description.
  destruct (decide (description ≠ "")) as [Hd|Hd].
  - destruct (decide (is_Some (inputValues !! "description"))) as [[v Hv]|Hno].
    + destruct (inputValues !! k) eqn:Hk; [done|].
      rewrite decide_False; [done|]. intros [-> _]. congruence.
    + apply eq_None_not_Some in Hno.
      destruct (decide (k = "description")) as [->|Hne].
      * rewrite lookup_insert_eq, Hno. by rewrite decide_True.
      * rewrite lookup_insert_ne by done. destruct (inputValues !! k); [done|].
        rewrite decide_False; [done|]. by intros [? _].
  - destruct (inputValues !! k); [done|].
    rewrite decide_False; [done|]. by intros [_ ?].
Qed.

Lemma base_inputs_lookup inputValues nextID title status created description k :
  base_inputs inputValues nextID title status created description !! k
  = input_by_precedence (description ≠ "") inputValues description
      nextID title status created k.
Proof.
  unfold base_inputs, input_by_precedence.
  rewrite copy_into_lookup, with_description_lookup, computed_inputs_lookup.
  destruct (inputValues !! k); [done|]. by case_decide.
Qed.

(** Prompting only adds keys. *)
Lemma prompt_missing_keeps E l (inputs inputs' : gmap string string) w w' k v :
  prompt_missing E l inputs w = (inr inputs', w') →
  inputs !! k = Some v → inputs' !! k = Some v.
Proof.
  revert inputs w. induction l as [|input l IH]; intros inputs w; simpl.
  - by intros [= <- _].
  - destruct (inputs !! Name input) eqn:Hname; [apply IH|].
    rewrite run_bind.
    destruct (promptForInput E input w) as [[e|value] w1]; [done|].
    intros Hrun Hk. eapply IH; [done|].
    rewrite lookup_insert_ne; [done|]. congruence.
Qed.

End inputs.

Section written.

Context (E : Collab) (cfg : Config) (args : list string).
Context (interactive : bool) (inputValues : gmap string string).
Context (helpInputs : bool) (w w' : World) (item : Created).
Context (Hrun : createWorkItem E cfg args interactive inputValues helpInputs w
                = (inr (Wrote item), w')).

(** What a written item is made of. *)
Lemma written_item :
  ∃ p,
    parseArgs (dom (StatusFolders cfg)) (valid_statuses cfg w) args = inr p
    ∧ (p_template p ≠ "" → c_template item = p_template p)
    ∧ (p_title p ≠ "" → c_title item = p_title p)
    ∧ c_status item = resolve_status cfg (p_status p)
    ∧ GetNextID E (fs w) = inr (c_id item)
    ∧ StatusFolders cfg !! c_status item = Some (c_folder item)
    ∧ c_folder item ≠ ""
    ∧ c_filename item
      = item_filename (c_id item) (c_title item) (c_template item)
    ∧ c_path item
      = filepath.Join [filepath.Join [".work"; c_folder item]; c_filename item]
    ∧ files (fs w') = <[c_path item := c_content item]> (files (fs w))
    ∧ dirs (fs w) ⊆ dirs (fs w')
    ∧ (∀ k v,
         input_by_precedence (p_description p ≠ "") inputValues
           (p_description p) (c_id item) (c_title item) (c_status item)
           (today w) k = Some v →
         c_inputs item !! k = Some v)
    ∧ (interactive = false → ∀ k,
         c_inputs item !! k
         = input_by_precedence (p_description p ≠ "") inputValues
             (p_description p) (c_id item) (c_title item) (c_status item)
             (today w) k).
Proof.
  apply createWorkItem_wrote in Hrun
    as (_ & p & w1 & w2 & Hp & Htpl & Htitle & Hcreate).
  exists p. split; [done|].
  split. { intros Hne. rewrite resolve_template_given in Htpl by done. congruence. }
  split. { intros Hne. rewrite resolve_title_given in Htitle by done. congruence. }
  eapply quiet_run in Htpl as (Hfs1 & Hday1 & _);
    [|apply quiet_resolve_template].
  eapply quiet_run in Htitle as (Hfs2 & Hday2 & _);
    [|apply quiet_resolve_title].
  apply create_wrote in Hcreate
    as (folder & t1 & w3 & _ & _ & Hstatus & Hid & Hfolder & Hne & Hf
        & Hname & Hpath & Hinputs & _ & Hmk & Hwr).
  rewrite Hfs2, Hfs1 in Hid, Hmk. rewrite Hday2, Hday1 in Hinputs.
  rewrite <-Hstatus in Hfolder, Hinputs. rewrite <-Hf in Hfolder, Hne, Hpath.
  apply WriteFile_inr in Hwr.
  apply MkdirAll_inr in Hmk as (Hfiles & _ & _ & Hdirs).
  repeat split; try done.
  - rewrite Hwr. simpl. by rewrite Hfiles.
  - by rewrite Hwr.
  - intros k v Hk. rewrite <-base_inputs_lookup in Hk.
    destruct interactive; [|by rewrite Hinputs].
    destruct Hinputs as (tis & _ & Hprompt).
    by eapply prompt_missing_keeps.
  - intros -> k. by rewrite Hinputs, base_inputs_lookup.
Qed.

End written.

(** ** Status and title in either order *)

Lemma parseArgs_description D valid args p :
  parseArgs D valid args = inr p → p_description p = nth 3 args "".
Proof.
  unfold parseArgs.
  repeat (case_bool_decide || case_decide); intros [= <-]; simpl; try done.
  all: symmetry; apply nth_overflow; lia.
Qed.

Lemma filed_under_nonempty :
  filed_under_its_status (λ s t, s ≠ "" ∧ t ≠ "").
Proof.
  intros E cfg template s t interactive inputValues w item w' Hs Ht [Hsne Htne]
    Hrun.
  apply written_item in Hrun
    as (p & Hp & _ & Htitle & Hstatus & _ & Hfolder & _).
  rewrite parseArgs_status_title in Hp by done. injection Hp as <-.
  simpl in *. unfold resolve_status in Hstatus.
  rewrite decide_False in Hstatus by done.
  rewrite Hstatus in Hfolder. auto.
Qed.




(** ** Precedence in the input map *)

Lemma inputs_follow_nonempty_description :
  inputs_follow_precedence (λ d, d ≠ "").
Proof.
  intros E cfg template second third d interactive inputValues w item w' k v
    Hrun Hk.
  apply written_item in Hrun as (p & Hp & _ & _ & _ & _ & _ & _ & _ & _ & _
                                 & _ & Hin & _).
  apply parseArgs_description in Hp. simpl in Hp. rewrite Hp in Hin.
  by apply Hin.
Qed.

(** C5, as amended.  In the input map of an item that gets written, a key
    has the value of highest precedence among: the value supplied for it;
    for ["description"], the positional description when it is not empty;
    the computed field [id], [title], [status] or [created].  Without
    prompts the map holds nothing else.  In particular a supplied value
    wins for every key, the description and the computed fields
    included. *)
Theorem input_map_precedence E cfg args interactive inputValues helpInputs
    w item w' :
  createWorkItem E cfg args interactive inputValues helpInputs w
  = (inr (Wrote item), w') →
  let d := nth 3 args "" in
  let expected :=
    input_by_precedence (d ≠ "") inputValues d (c_id item) (c_title item)
      (c_status item) (today w) in
  (∀ k v, expected k = Some v → c_inputs item !! k = Some v)
  ∧ (interactive = false → ∀ k, c_inputs item !! k = expected k)
  ∧ (∀ k v, inputValues !! k = Some v → c_inputs item !! k = Some v)
  ∧ (inputValues !! "description" = None → d ≠ "" →
     c_inputs item !! "description" = Some d)
  ∧ (inputValues !! "id" = None → c_inputs item !! "id" = Some (c_id item))
  ∧ (inputValues !! "title" = None →
     c_inputs item !! "title" = Some (c_title item))
  ∧ (inputValues !! "status" = None →
     c_inputs item !! "status" = Some (c_status item))
  ∧ (inputValues !! "created" = None →
     c_inputs item !! "created" = Some (today w)).
Proof.
  intros Hrun d expected.
  apply written_item in Hrun as (p & Hp & _ & _ & _ & _ & _ & _ & _ & _ & _
                                 & _ & Hin & Hall).
  apply parseArgs_description in Hp. rewrite Hp in Hin, Hall.
  fold d in Hin, Hall. fold expected in Hin, Hall.
  split; [done|]. split; [done|].
  split. { intros k v Hk. apply Hin. unfold expected, input_by_precedence.
           by rewrite Hk. }
  split. { intros Hno Hd. apply Hin. unfold expected, input_by_precedence.
           rewrite Hno. by rewrite decide_True. }
  repeat split; intros Hno; apply Hin; unfold expected, input_by_precedence;
    rewrite Hno; (rewrite decide_False; [done|by intros [? _]]).
Qed.

(** A request with a positional description and two supplied values, one
    of them for a computed field. *)
Lemma input_map_precedence_witness :
  ∃ item w',
    createWorkItem Example.collab Example.cfg
      ["prd"; "todo"; "Fix bug"; "It crashes"] false
      {[ "id" := "999"; "due" := "2025-10-01" ]} false Example.world
    = (inr (Wrote item), w')
    ∧ c_id item = "001"
    ∧ c_inputs item !! "id" = Some "999"
    ∧ c_inputs item !! "due" = Some "2025-10-01"
    ∧ c_inputs item !! "description" = Some "It crashes"
    ∧ c_inputs item !! "title" = Some "Fix bug"
    ∧ (∀ k v, ({[ "id" := "999"; "due" := "2025-10-01" ]} : gmap string string)
                !! k = Some v →
              c_inputs item !! k = Some v).
Proof.
  eexists _, _. split; [by vm_compute|].
  do 5 (split; [by vm_compute|]).
  refine (proj1 (proj2 (proj2 (input_map_precedence Example.collab Example.cfg
            ["prd"; "todo"; "Fix bug"; "It crashes"] false
            {[ "id" := "999"; "due" := "2025-10-01" ]} false Example.world
            _ _ _)))).
  by vm_compute.
Defined.

(** C5, as stated, fails: an empty fourth argument does not count as a
    description.  Without prompts the key stays out of the map; with
    prompts the template's question for it is asked and its answer is
    used. *)
Lemma inputs_follow_precedence_counterexample :
  ¬ inputs_follow_precedence (λ _, True)
  ∧ (∃ item w',
       createWorkItem Example.collab Example.cfg
         ["prd"; "todo"; "Fix bug"; ""] false ∅ false Example.world
       = (inr (Wrote item), w')
       ∧ c_inputs item !! "description" = None)
  ∧ (∃ item w',
       createWorkItem Example.collab Example.cfg
         ["prd"; "todo"; "Fix bug"; ""] true ∅ false
         (Example.typing ["Typed text"])
       = (inr (Wrote item), w')
       ∧ c_inputs item !! "description" = Some "Typed text").
Proof.
  assert (∃ item w',
            createWorkItem Example.collab Example.cfg
              ["prd"; "todo"; "Fix bug"; ""] false ∅ false Example.world
            = (inr (Wrote item), w')
            ∧ c_inputs item !! "description" = None)
    as Hrun by (eexists _, _; split; by vm_compute).
  split; [|split; [done|]].
  - destruct Hrun as (item & w' & Hrun & Hno). intros H.
    specialize (H _ _ _ _ _ _ _ _ _ _ _ "description" "" Hrun).
    rewrite Hno in H. discriminate H.
    unfold input_by_precedence. by rewrite lookup_empty, decide_True.
  - eexists _, _; split; by vm_compute.
Qed.

(** ** The linter *)

Section lint.

Context (Validate : Config → string → list ValidationIssue).
Context (cfg : Config) (t : FS).




End lint.


(** The two cases of [TestLintWorkItems], and the validation example of the
    specification: one issue, about the status, for [invalid-status]. *)
Example lint_valid_item :
  LintAll ValidateItem Example.cfg (Example.tree_with "todo") = None
  ∧ LintAll ValidateItem Example.cfg Example.tree = None.
Proof. by vm_compute. Qed.

Example lint_invalid_status :
  ValidateItem Example.cfg (Example.item_text "invalid-status")
  = [FieldIssue "status" "invalid status: invalid-status"]
  ∧ LintAll ValidateItem Example.cfg (Example.tree_with "invalid-status")
    = Some (Bytes.join (String "010" "")
              ["validation failed:";
               ".work/1_todo/001-test-feature.prd.md:";
               "  - status: invalid status: invalid-status"; ""]).
Proof. by vm_compute. Qed.

(** ** Paths made of plain elements *)

Section plain_paths.

Lemma split_nonempty sep s : Bytes.split sep s ≠ [].
Proof.
  destruct s as [|c s]; simpl; [done|].
  case_decide; [done|]. by destruct (Bytes.split sep s).
Qed.

Lemma split_no_sep sep s : Bytes.mem sep s = false → Bytes.split sep s = [s].
Proof.
  induction s as [|c s IH]; simpl; [done|].
  destruct (decide (sep = c)) as [->|Hne]; [done|].
  intros Hs. rewrite decide_False by done. by rewrite IH.
Qed.

Lemma split_app_sep sep a b :
  Bytes.split sep (a +:+ String sep b) = Bytes.split sep a ++ Bytes.split sep b.
Proof.
  induction a as [|c a IH].
  - rewrite app_nil_l. simpl. by rewrite decide_True.
  - rewrite app_cons. simpl. case_decide; [by rewrite IH|].
    rewrite IH. pose proof (split_nonempty sep a).
    by destruct (Bytes.split sep a).
Qed.

Lemma join_cons sep e e' l :
  Bytes.join sep (e :: e' :: l) = e +:+ sep +:+ Bytes.join sep (e' :: l).
Proof. done. Qed.

Lemma join_cons_ne sep e l :
  l ≠ [] → Bytes.join sep (e :: l) = e +:+ sep +:+ Bytes.join sep l.
Proof. by destruct l. Qed.

Lemma join_snoc sep l e :
  l ≠ [] → Bytes.join sep (l ++ [e]) = Bytes.join sep l +:+ sep +:+ e.
Proof.
  induction l as [|x l IH]; [done|]. intros _.
  destruct l as [|y l]; [done|].
  change ((x :: y :: l) ++ [e]) with (x :: (y :: l) ++ [e]).
  change ((y :: l) ++ [e]) with (y :: (l ++ [e])) at 1.
  rewrite join_cons. change (y :: l ++ [e]) with ((y :: l) ++ [e]).
  rewrite IH by done. rewrite join_cons. by rewrite !app_assoc.
Qed.

Lemma split_join l :
  Forall (λ e, Bytes.mem "/" e = false) l → l ≠ [] →
  filepath.split (Bytes.join "/" l) = l.
Proof.
  unfold filepath.split. induction 1 as [|e l He Hl IH]; [done|]. intros _.
  destruct l as [|e' l]; [by apply split_no_sep|].
  rewrite join_cons.
  change ("/" +:+ Bytes.join "/" (e' :: l))
    with (String "/" (Bytes.join "/" (e' :: l))).
  rewrite split_app_sep, split_no_sep by done. by rewrite IH.
Qed.

Lemma join_split s : Bytes.join "/" (filepath.split s) = s.
Proof.
  unfold filepath.split. induction s as [|c s IH]; simpl; [done|].
  case_decide as Hc.
  - subst c. pose proof (split_nonempty "/" s).
    destruct (Bytes.split "/" s) as [|h t] eqn:Hs; [done|].
    rewrite join_cons, IH. done.
  - pose proof (split_nonempty "/" s).
    destruct (Bytes.split "/" s) as [|h t] eqn:Hs; [done|].
    destruct t as [|h' t]; simpl in *; [by rewrite IH|].
    rewrite <-IH. done.
Qed.

Lemma clean_elems_plain root out l :
  Forall plain l → filepath.clean_elems root out l = rev out ++ l.
Proof.
  intros Hl. revert out. induction Hl as [|e l (He & Hd & Hdd & _) Hl IH];
    intros out; simpl.
  - by rewrite List.app_nil_r.
  - rewrite decide_False by (intros [?|?]; done).
    rewrite decide_False by done. rewrite IH. simpl.
    by rewrite <-List.app_assoc.
Qed.

Lemma plain_not_rooted e s : plain e → filepath.rooted (e +:+ s) = false.
Proof.
  intros (He & _ & _ & Hs). destruct e as [|c e]; [done|].
  rewrite app_cons. simpl in *. apply bool_decide_eq_false. intros ->.
  by rewrite decide_True in Hs.
Qed.

Lemma join_plain_not_rooted l :
  Forall plain l → l ≠ [] → filepath.rooted (Bytes.join "/" l) = false.
Proof.
  intros Hl Hne. destruct Hl as [|e l He Hl]; [done|].
  destruct l as [|e' l].
  - rewrite <-(app_nil_r e). by apply plain_not_rooted.
  - rewrite join_cons. by apply plain_not_rooted.
Qed.

Lemma join_plain_nonempty l :
  Forall plain l → l ≠ [] → Bytes.join "/" l ≠ "".
Proof.
  intros Hl Hne. destruct Hl as [|e l (He & _) Hl]; [done|].
  destruct e as [|c e]; [done|]. by destruct l.
Qed.

Lemma plain_no_sep l :
  Forall plain l → Forall (λ e, Bytes.mem "/" e = false) l.
Proof. intros Hl. eapply Forall_impl; [done|]. by intros e (_ & _ & _ & ?). Qed.

(** [Clean] keeps a relative path made of plain elements. *)
Lemma Clean_plain l :
  Forall plain l → l ≠ [] →
  filepath.Clean (Bytes.join "/" l) = Bytes.join "/" l.
Proof.
  intros Hl Hne. unfold filepath.Clean.
  rewrite join_plain_not_rooted, split_join by auto using plain_no_sep.
  rewrite clean_elems_plain by done. simpl.
  by rewrite decide_False by by apply join_plain_nonempty.
Qed.

Lemma Join_root_folder folder :
  plain_path folder →
  filepath.Join [item_root; folder] = item_root +:+ "/" +:+ folder
  ∧ filepath.Join [item_root; folder]
    = Bytes.join "/" (item_root :: filepath.split folder).
Proof.
  intros Hf.
  assert (Bytes.join "/" (item_root :: filepath.split folder)
          = item_root +:+ "/" +:+ folder) as Hj.
  { rewrite join_cons_ne by apply split_nonempty. by rewrite join_split. }
  assert (filepath.Join [item_root; folder]
          = Bytes.join "/" (item_root :: filepath.split folder)) as Hjoin.
  { unfold filepath.Join. rewrite decide_False by done.
    change (Bytes.join "/" [item_root; folder])
      with (item_root +:+ "/" +:+ folder).
    rewrite <-Hj. apply Clean_plain; [|done].
    constructor; [|done]. by vm_compute. }
  split; [|done]. by rewrite Hjoin.
Qed.

(** The path of a file with a plain name in a plain folder. *)
Lemma Join_plain_file folder name :
  plain_path folder → plain name →
  let path := filepath.Join [filepath.Join [item_root; folder]; name] in
  path = item_root +:+ "/" +:+ folder +:+ "/" +:+ name
  ∧ filepath.split path = item_root :: filepath.split folder ++ [name]
  ∧ filepath.Base path = name
  ∧ under_root path = true.
Proof.
  intros Hf Hn path.
  destruct (Join_root_folder folder Hf) as [Hdir Hdir'].
  assert (Forall plain (item_root :: filepath.split folder ++ [name])) as Hall.
  { constructor; [by vm_compute|]. apply Forall_app. split; [done|].
    by constructor. }
  assert (Bytes.join "/" (item_root :: filepath.split folder ++ [name])
          = Bytes.join "/" (item_root :: filepath.split folder)
            +:+ "/" +:+ name) as Hsnoc
    by by apply (join_snoc "/" (item_root :: filepath.split folder) name).
  assert (path = Bytes.join "/" (item_root :: filepath.split folder ++ [name]))
    as Hpath.
  { unfold path. set (A := filepath.Join [item_root; folder]) in *.
    change (filepath.Join [A; name])
      with (if decide (A = "") then filepath.Join [name]
            else filepath.Clean (Bytes.join "/" [A; name])).
    rewrite decide_False by by rewrite Hdir.
    change (Bytes.join "/" [A; name]) with (A +:+ "/" +:+ name).
    rewrite Hdir', <-Hsnoc. by apply Clean_plain. }
  assert (filepath.split path
          = item_root :: filepath.split folder ++ [name]) as Hsplit.
  { rewrite Hpath. apply split_join; [by apply plain_no_sep | done]. }
  split; [|split; [done|split]].
  - rewrite Hpath, Hsnoc, <-Hdir', Hdir. by rewrite !app_assoc.
  - unfold filepath.Base. rewrite Hsplit.
    change (item_root :: filepath.split folder ++ [name])
      with ((item_root :: filepath.split folder) ++ [name]).
    apply last_last.
  - unfold under_root. rewrite Hsplit.
    pose proof (split_nonempty "/" folder) as Hne. unfold filepath.split in *.
    destruct (Bytes.split "/" folder); [done|]. by vm_compute.
Qed.

End plain_paths.

(** ** File names without separator *)

Section plain_names.

Lemma kebabCase_no_sep title :
  Bytes.mem "/" title = false → Bytes.mem "/" (kebabCase title) = false.
Proof.
  rewrite kebabCase_map. induction title as [|c s IH]; simpl; [done|].
  destruct (decide ("/"%char = c)) as [<-|Hne]; [done|]. intros Hs.
  rewrite decide_False; [by apply IH|].
  revert Hne. by destruct c as [[] [] [] [] [] [] [] []].
Qed.

Lemma item_filename_plain nextID title template :
  Bytes.mem "/" nextID = false → Bytes.mem "/" title = false →
  Bytes.mem "/" template = false →
  plain (item_filename nextID title template).
Proof.
  intros Hid Htitle Htpl.
  assert (Bytes.mem "-" (item_filename nextID title template) = true) as Hdash.
  { unfold item_filename. rewrite !mem_app.
    change (Bytes.mem "-" "-") with true. by rewrite orb_true_r. }
  repeat split.
  - intros Heq. by rewrite Heq in Hdash.
  - intros Heq. by rewrite Heq in Hdash.
  - intros Heq. by rewrite Heq in Hdash.
  - unfold item_filename. rewrite !mem_app, Hid, Htpl.
    by rewrite kebabCase_no_sep.
Qed.

(** Where the item is written when neither its identifier nor its title nor
    its template has a separator and the status folders are plain: in the
    folder of its status, under the name made of its identifier. *)
Lemma written_file_plain E cfg args interactive inputValues helpInputs
    w item w' :
  createWorkItem E cfg args interactive inputValues helpInputs w
  = (inr (Wrote item), w') →
  plain_folders cfg →
  Bytes.mem "/" (c_id item) = false →
  Bytes.mem "/" (c_title item) = false →
  Bytes.mem "/" (c_template item) = false →
  c_path item
  = item_root +:+ "/" +:+ c_folder item +:+ "/" +:+ c_filename item
  ∧ filepath.Base (c_path item)
    = item_filename (c_id item) (c_title item) (c_template item)
  ∧ under_root (c_path item) = true.
Proof.
  intros Hrun Hcfg Hid Htitle Htpl.
  apply written_item in Hrun
    as (p & _ & _ & _ & _ & _ & Hfolder & _ & Hname & Hpath & _).
  apply Hcfg in Hfolder.
  pose proof (item_filename_plain _ _ _ Hid Htitle Htpl) as Hplain.
  rewrite <-Hname in *.
  destruct (Join_plain_file _ _ Hfolder Hplain) as (H1 & _ & H3 & H4).
  unfold item_root in *. rewrite <-Hpath in H1, H3, H4. done.
Qed.

End plain_names.

(** ** Decimal identifiers *)

Section decimals.

Import Decimal.

Lemma string_of_uint_digits d :
  forallb is_digit (list_ascii_of_string (NilEmpty.string_of_uint d)) = true.
Proof. induction d; simpl; auto. Qed.

Lemma Itoa_NilEmpty n : Itoa n = NilEmpty.string_of_uint (N.to_uint n).
Proof.
  unfold Itoa, NilZero.string_of_uint.
  destruct (N.to_uint n) eqn:Hn; try done.
  destruct n as [|p]; [done|]. by apply DecimalPos.Unsigned.to_uint_nonnil in Hn.
Qed.

Lemma Itoa_digits n : all_digits (Itoa n) = true.
Proof. rewrite Itoa_NilEmpty. apply string_of_uint_digits. Qed.

Lemma Itoa_length n : String.length (Itoa n) = nb_digits (N.to_uint n).
Proof.
  rewrite Itoa_NilEmpty. generalize (N.to_uint n).
  induction u; simpl; auto.
Qed.

Lemma Itoa_nonempty n : Itoa n ≠ "".
Proof.
  rewrite Itoa_NilEmpty. destruct (N.to_uint n) eqn:Hn; try done.
  destruct n as [|p]; [done|]. by apply DecimalPos.Unsigned.to_uint_nonnil in Hn.
Qed.

Lemma uint_of_zeros k s :
  NilEmpty.uint_of_string (Bytes.repeat "0" k +:+ s)
  = Nat.iter k D0 <$> NilEmpty.uint_of_string s.
Proof.
  induction k as [|k IH]; simpl.
  - rewrite app_nil_l. by destruct (NilEmpty.uint_of_string s).
  - rewrite IH. by destruct (NilEmpty.uint_of_string s).
Qed.

Lemma of_uint_zeros k d : N.of_uint (Nat.iter k D0 d) = N.of_uint d.
Proof. induction k as [|k IH]; simpl; [done|]. apply IH. Qed.

Lemma digits_value_zero_pad width n : digits_value (zero_pad width n) = Some n.
Proof.
  unfold digits_value, zero_pad. rewrite decide_False.
  - rewrite uint_of_zeros, Itoa_NilEmpty, NilEmpty.usu. simpl.
    by rewrite of_uint_zeros, DecimalN.Unsigned.of_to.
  - pose proof (Itoa_nonempty n) as Hne. intros Heq.
    apply (f_equal String.length) in Heq. rewrite app_length in Heq.
    destruct (Itoa n); [done|]. simpl in Heq. lia.
Qed.

Lemma repeat_length c k : String.length (Bytes.repeat c k) = k.
Proof. induction k; simpl; auto. Qed.

Lemma zero_pad_length width n :
  String.length (zero_pad width n) = width `max` String.length (Itoa n).
Proof. unfold zero_pad. rewrite app_length, repeat_length. lia. Qed.

Lemma zero_pad_digits width n : all_digits (zero_pad width n) = true.
Proof.
  unfold zero_pad, all_digits.
  assert (∀ a b, list_ascii_of_string (a +:+ b)
                 = list_ascii_of_string a ++ list_ascii_of_string b) as Happ.
  { intros a b. induction a as [|c a IH]; [done|].
    rewrite app_cons. simpl. by rewrite IH. }
  rewrite Happ, forallb_app. apply andb_true_iff. split; [|apply Itoa_digits].
  induction (width - String.length (Itoa n)); simpl; auto.
Qed.

Lemma leading_digits_app d c rest :
  all_digits d = true → is_digit c = false →
  leading_digits (d +:+ String c rest) = (d, String c rest).
Proof.
  unfold all_digits. induction d as [|x d IH]; simpl.
  - intros _ Hc. by rewrite Hc.
  - intros [Hx Hd]%andb_true_iff Hc. by rewrite Hx, IH.
Qed.

(** A file name that starts with a padded identifier and a hyphen is read
    back as this identifier. *)
Lemma item_id_zero_pad width n rest :
  item_id (zero_pad width n +:+ "-" +:+ rest)
  = Some (n, width `max` String.length (Itoa n)).
Proof.
  unfold item_id.
  change ("-" +:+ rest) with (String "-" rest).
  rewrite leading_digits_app by (apply zero_pad_digits || done).
  by rewrite digits_value_zero_pad, zero_pad_length.
Qed.

End decimals.

(** ** The width of a decimal grows with the number *)

Section decimal_width.

Import Decimal.

Local Abbreviation p10 := pow10.

Lemma p10_S k : p10 (S k) = (10 * p10 k)%N.
Proof. unfold pow10. rewrite Nat2N.inj_succ. apply N.pow_succ_r'. Qed.

Lemma p10_pos k : (0 < p10 k)%N.
Proof. apply N.neq_0_lt_0, N.pow_nonzero. done. Qed.

Lemma Npos_add a b : N.pos (a + b) = (N.pos a + N.pos b)%N.
Proof. done. Qed.

Lemma Npos_mul a b : N.pos (a * b) = (N.pos a * N.pos b)%N.
Proof. done. Qed.

Lemma digit_step (x A P R : N) :
  (x ≤ 9 → (x + 10 * A) * P ≤ R → R < (x + 10 * A + 1) * P →
   A * (10 * P) ≤ R ∧ R < (A + 1) * (10 * P))%N.
Proof.
  intros Hx Hlo Hhi.
  replace ((x + 10 * A) * P)%N with (x * P + 10 * (A * P))%N in Hlo by ring.
  replace ((x + 10 * A + 1) * P)%N with (x * P + 10 * (A * P) + P)%N in Hhi
    by ring.
  replace (A * (10 * P))%N with (10 * (A * P))%N by ring.
  replace ((A + 1) * (10 * P))%N with (10 * (A * P) + 10 * P)%N by ring.
  pose proof (N.mul_le_mono_r x 9 P Hx).
  generalize dependent (A * P)%N. generalize dependent (x * P)%N. lia.
Qed.

Lemma of_uint_acc_bounds d acc :
  (N.pos acc * p10 (nb_digits d) ≤ N.pos (Pos.of_uint_acc d acc)
   ∧ N.pos (Pos.of_uint_acc d acc) < (N.pos acc + 1) * p10 (nb_digits d))%N.
Proof.
  revert acc. induction d as [|l IH|l IH|l IH|l IH|l IH|l IH|l IH|l IH|l IH|l IH];
    intros acc;
    [change (pow10 (nb_digits Nil)) with 1%N; simpl; lia|..].
  all: cbn [Pos.of_uint_acc nb_digits]; rewrite p10_S.
  - destruct (IH (10 * acc)%positive) as [Hlo Hhi].
    apply (digit_step 0); [lia|by rewrite N.add_0_l..].
  - destruct (IH (1 + 10 * acc)%positive); by apply (digit_step 1).
  - destruct (IH (2 + 10 * acc)%positive); by apply (digit_step 2).
  - destruct (IH (3 + 10 * acc)%positive); by apply (digit_step 3).
  - destruct (IH (4 + 10 * acc)%positive); by apply (digit_step 4).
  - destruct (IH (5 + 10 * acc)%positive); by apply (digit_step 5).
  - destruct (IH (6 + 10 * acc)%positive); by apply (digit_step 6).
  - destruct (IH (7 + 10 * acc)%positive); by apply (digit_step 7).
  - destruct (IH (8 + 10 * acc)%positive); by apply (digit_step 8).
  - destruct (IH (9 + 10 * acc)%positive); by apply (digit_step 9).
Qed.

Lemma of_uint_upper d : (N.of_uint d < p10 (nb_digits d))%N.
Proof.
  induction d as [|l IH|l IH|l IH|l IH|l IH|l IH|l IH|l IH|l IH|l IH];
    [done|..].
  all: cbn [nb_digits]; rewrite p10_S.
  all: pose proof (p10_pos (nb_digits l)).
  - change (N.of_uint (D0 l)) with (N.of_uint l). lia.
  - destruct (of_uint_acc_bounds l 1). change (N.of_uint (D1 l)) with (N.pos (Pos.of_uint_acc l 1)). lia.
  - destruct (of_uint_acc_bounds l 2). change (N.of_uint (D2 l)) with (N.pos (Pos.of_uint_acc l 2)). lia.
  - destruct (of_uint_acc_bounds l 3). change (N.of_uint (D3 l)) with (N.pos (Pos.of_uint_acc l 3)). lia.
  - destruct (of_uint_acc_bounds l 4). change (N.of_uint (D4 l)) with (N.pos (Pos.of_uint_acc l 4)). lia.
  - destruct (of_uint_acc_bounds l 5). change (N.of_uint (D5 l)) with (N.pos (Pos.of_uint_acc l 5)). lia.
  - destruct (of_uint_acc_bounds l 6). change (N.of_uint (D6 l)) with (N.pos (Pos.of_uint_acc l 6)). lia.
  - destruct (of_uint_acc_bounds l 7). change (N.of_uint (D7 l)) with (N.pos (Pos.of_uint_acc l 7)). lia.
  - destruct (of_uint_acc_bounds l 8). change (N.of_uint (D8 l)) with (N.pos (Pos.of_uint_acc l 8)). lia.
  - destruct (of_uint_acc_bounds l 9). change (N.of_uint (D9 l)) with (N.pos (Pos.of_uint_acc l 9)). lia.
Qed.

Lemma of_uint_lower d :
  starts_nonzero d → (p10 (nb_digits d - 1) ≤ N.of_uint d)%N.
Proof.
  destruct d as [|l|l|l|l|l|l|l|l|l|l]; try done; intros _.
  all: cbn [nb_digits]; rewrite Nat.sub_succ, Nat.sub_0_r.
  all: pose proof (p10_pos (nb_digits l)).
  - destruct (of_uint_acc_bounds l 1). change (N.of_uint (D1 l)) with (N.pos (Pos.of_uint_acc l 1)). lia.
  - destruct (of_uint_acc_bounds l 2). change (N.of_uint (D2 l)) with (N.pos (Pos.of_uint_acc l 2)). lia.
  - destruct (of_uint_acc_bounds l 3). change (N.of_uint (D3 l)) with (N.pos (Pos.of_uint_acc l 3)). lia.
  - destruct (of_uint_acc_bounds l 4). change (N.of_uint (D4 l)) with (N.pos (Pos.of_uint_acc l 4)). lia.
  - destruct (of_uint_acc_bounds l 5). change (N.of_uint (D5 l)) with (N.pos (Pos.of_uint_acc l 5)). lia.
  - destruct (of_uint_acc_bounds l 6). change (N.of_uint (D6 l)) with (N.pos (Pos.of_uint_acc l 6)). lia.
  - destruct (of_uint_acc_bounds l 7). change (N.of_uint (D7 l)) with (N.pos (Pos.of_uint_acc l 7)). lia.
  - destruct (of_uint_acc_bounds l 8). change (N.of_uint (D8 l)) with (N.pos (Pos.of_uint_acc l 8)). lia.
  - destruct (of_uint_acc_bounds l 9). change (N.of_uint (D9 l)) with (N.pos (Pos.of_uint_acc l 9)). lia.
Qed.

Lemma nzhead_shape d : nzhead d = Nil ∨ starts_nonzero (nzhead d).
Proof. induction d; simpl; auto. Qed.

Lemma to_uint_shape n : n ≠ 0%N → starts_nonzero (N.to_uint n).
Proof.
  intros Hn. rewrite <-(DecimalN.Unsigned.of_to n) at 1.
  rewrite DecimalN.Unsigned.to_of. unfold unorm.
  destruct (nzhead_shape (N.to_uint n)) as [Hnil|Hnz].
  - exfalso. apply Hn. rewrite <-(DecimalN.Unsigned.of_to n).
    rewrite <-DecimalN.Unsigned.of_uint_norm. unfold unorm. by rewrite Hnil.
  - by destruct (nzhead (N.to_uint n)).
Qed.

Lemma Itoa_length_mono n m :
  (n ≤ m)%N → (String.length (Itoa n) ≤ String.length (Itoa m))%nat.
Proof.
  intros Hle. rewrite !Itoa_length.
  destruct (decide (n = 0%N)) as [->|Hn].
  - pose proof (Itoa_nonempty m) as Hne. rewrite <-(Itoa_length m).
    destruct (Itoa m); [done|]. simpl. change (nb_digits (N.to_uint 0)) with 1.
    lia.
  - pose proof (of_uint_lower _ (to_uint_shape n Hn)) as Hlo.
    pose proof (of_uint_upper (N.to_uint m)) as Hhi.
    rewrite DecimalN.Unsigned.of_to in Hlo, Hhi.
    assert (p10 (nb_digits (N.to_uint n) - 1) < p10 (nb_digits (N.to_uint m)))%N
      as Hlt by lia.
    unfold pow10 in Hlt. apply N.pow_lt_mono_r_iff in Hlt; lia.
Qed.

(** Padding to three digits, whatever smaller identifiers are around. *)
Lemma zero_pad_width n m :
  (n ≤ m)%N →
  zero_pad (3 `max` String.length (Itoa n)) m = zero_pad 3 m.
Proof.
  intros Hle. apply Itoa_length_mono in Hle. unfold zero_pad.
  f_equal. f_equal. lia.
Qed.

End decimal_width.

(** ** The identifiers of a tree *)

Section tree_ids.

Lemma elem_of_item_ids t x :
  x ∈ item_ids t
  ↔ ∃ p, is_Some (files t !! p) ∧ under_root p = true
         ∧ item_id (filepath.Base p) = Some x.
Proof.
  unfold item_ids, tree_files. rewrite list_elem_of_omap. split.
  - intros (p & Hp & Hx). apply list_elem_of_In, filter_In in Hp as [Hp Hroot].
    apply list_elem_of_In, list_elem_of_fmap in Hp as ([q c] & -> & Hq).
    apply elem_of_map_to_list in Hq. exists q. eauto.
  - intros (p & [c Hp] & Hroot & Hx). exists p. split; [|done].
    apply list_elem_of_In, filter_In. split; [|done].
    apply list_elem_of_In, list_elem_of_fmap. exists (p, c). split; [done|].
    by apply elem_of_map_to_list.
Qed.

Lemma item_ids_files t t' : files t' = files t → item_ids t' = item_ids t.
Proof. intros Hf. unfold item_ids, tree_files. by rewrite Hf. Qed.

Lemma max_id_le ids b :
  (max_id ids ≤ b)%N ↔ ∀ x, x ∈ ids → (x.1 ≤ b)%N.
Proof.
  unfold max_id. induction ids as [|y ids IH]; simpl.
  - split; [by intros _ x ?%elem_of_nil | lia].
  - rewrite N.max_lub_iff, IH. split.
    + intros [Hy Hids] x [->|Hx]%elem_of_cons; auto.
    + intros Hall. split; [apply Hall; left|intros x Hx; apply Hall; by right].
Qed.

Lemma id_width_le ids b :
  (id_width ids ≤ b ↔ 3 ≤ b ∧ ∀ x, x ∈ ids → x.2 ≤ b)%nat.
Proof.
  unfold id_width. induction ids as [|y ids IH]; simpl.
  - split; [|lia]. intros H. split; [done|]. by intros x ?%elem_of_nil.
  - rewrite Nat.max_lub_iff, IH. split.
    + intros (Hy & H3 & Hids). split; [done|].
      intros x [->|Hx]%elem_of_cons; auto.
    + intros (H3 & Hall). split; [apply Hall; left|].
      split; [done|]. intros x Hx. apply Hall. by right.
Qed.

(** Writing an item file adds its identifier to those of the tree. *)
Lemma item_ids_written t t' p c x :
  files t' = <[p := c]> (files t) → under_root p = true →
  item_id (filepath.Base p) = Some x →
  ∀ y, y ∈ item_ids t' ↔ y = x ∨ y ∈ item_ids t.
Proof.
  intros Hf Hroot Hx y. rewrite !elem_of_item_ids, Hf. split.
  - intros (q & Hq & Hr & Hy). destruct (decide (q = p)) as [->|Hne].
    + left. congruence.
    + right. rewrite lookup_insert_ne in Hq by done. eauto.
  - intros [->|(q & Hq & Hr & Hy)].
    + exists p. by rewrite lookup_insert_eq.
    + exists q. split; [|done]. destruct (decide (p = q)) as [->|Hne].
      * by rewrite lookup_insert_eq.
      * by rewrite lookup_insert_ne.
Qed.

Lemma max_id_written ids ids' (x : N * nat) :
  (∀ y, y ∈ ids' ↔ y = x ∨ y ∈ ids) →
  max_id ids' = (x.1 `max` max_id ids)%N.
Proof.
  intros Hel. apply N.le_antisymm.
  - apply max_id_le. intros y [->|Hy]%Hel; [lia|].
    pose proof (proj1 (max_id_le ids (max_id ids)) (N.le_refl _) y Hy). lia.
  - apply N.max_lub.
    + apply (proj1 (max_id_le ids' _) (N.le_refl _)), Hel. by left.
    + apply max_id_le. intros y Hy.
      apply (proj1 (max_id_le ids' _) (N.le_refl _)), Hel. by right.
Qed.

Lemma id_width_written ids ids' (x : N * nat) :
  (∀ y, y ∈ ids' ↔ y = x ∨ y ∈ ids) →
  id_width ids' = x.2 `max` id_width ids.
Proof.
  intros Hel. apply Nat.le_antisymm.
  - apply id_width_le. split.
    + pose proof (proj1 (id_width_le ids (id_width ids)) (Nat.le_refl _)). lia.
    + intros y [->|Hy]%Hel; [lia|].
      pose proof (proj1 (id_width_le ids (id_width ids)) (Nat.le_refl _))
        as [_ Hall].
      specialize (Hall y Hy). lia.
  - pose proof (proj1 (id_width_le ids' (id_width ids')) (Nat.le_refl _))
      as [H3 Hall].
    apply Nat.max_lub.
    + apply Hall, Hel. by left.
    + apply id_width_le. split; [done|]. intros y Hy. apply Hall, Hel. by right.
Qed.

Lemma all_digits_no_sep s : all_digits s = true → Bytes.mem "/" s = false.
Proof.
  unfold all_digits. induction s as [|c s IH]; simpl; [done|].
  intros [Hc Hs]%andb_true_iff. rewrite IH by done.
  destruct (decide ("/"%char = c)) as [<-|]; done.
Qed.

(** The allocator on a tree it can read: the result is a decimal of three
    digits at least whose value is the largest identifier plus one, so it is
    the identifier of no file of the tree. *)
Lemma NextID_value t :
  is_dir t item_root = true →
  ∃ s, NextID t = inr s
       ∧ digits_value s = Some (max_id (item_ids t) + 1)%N
       ∧ all_digits s = true
       ∧ (3 ≤ String.length s)%nat
       ∧ ∀ x, x ∈ item_ids t → (x.1 < max_id (item_ids t) + 1)%N.
Proof.
  intros Hdir. unfold NextID. rewrite Hdir. simpl.
  eexists. split; [done|]. split; [apply digits_value_zero_pad|].
  split; [apply zero_pad_digits|]. split.
  - rewrite zero_pad_length.
    pose proof (proj1 (id_width_le (item_ids t) _) (Nat.le_refl _)) as [H3 _].
    lia.
  - intros x Hx.
    pose proof (proj1 (max_id_le (item_ids t) _) (N.le_refl _) x Hx). lia.
Qed.

(** The allocator on a counted tree. *)
Lemma NextID_counted t n :
  counted t n → NextID t = inr (zero_pad 3 (n + 1)).
Proof.
  intros (Hdir & Hmax & Hwidth). unfold NextID.
  rewrite Hdir, Hmax, Hwidth. simpl. f_equal. apply zero_pad_width. lia.
Qed.

Lemma NextID_no_item t :
  is_dir t item_root = true → item_ids t = [] → NextID t = inr "001".
Proof.
  intros Hdir Hno. unfold NextID. by rewrite Hdir, Hno.
Qed.

Lemma counted_no_item t :
  is_dir t item_root = true → item_ids t = [] → counted t 0.
Proof. intros Hdir Hno. unfold counted. by rewrite Hdir, Hno. Qed.

End tree_ids.

(** ** Identifiers in sequence *)

Section sequence.

Lemma parseArgs_from_args D valid args p :
  parseArgs D valid args = inr p →
  p_template p = hd "" args ∧ (p_title p = "" ∨ p_title p ∈ args).
Proof.
  unfold parseArgs. destruct args as [|a0 [|a1 [|a2 rest]]]; simpl.
  all: repeat (case_bool_decide || case_decide); intros [= <-]; simpl.
  all: try lia.
  all: split; [done|]; try (by left); right.
  all: repeat (apply elem_of_cons; (by left) || right).
Qed.

Lemma createWorkItem_not_listed E cfg args interactive inputValues w w' :
  createWorkItem E cfg args interactive inputValues false w ≠ (inr Listed, w').
Proof.
  rewrite createWorkItem_unfold.
  destruct (parseArgs _ _ _) as [e|p]; [done|].
  destruct (resolve_template _ _ _ w) as [[e|template] w1]; [done|].
  destruct (resolve_title _ _ w1) as [[e|title] w2]; [done|].
  apply create_not_listed.
Qed.

Lemma is_dir_mono t t' p :
  dirs t ⊆ dirs t' → is_dir t p = true → is_dir t' p = true.
Proof.
  unfold is_dir. intros Hsub Hp%bool_decide_eq_true.
  apply bool_decide_eq_true. destruct Hp as [?|[?|Hp]]; auto.
Qed.

Context (E : Collab) (cfg : Config).
Context (Halloc : GetNextID E = NextID) (Hcfg : plain_folders cfg).

(** One request on a counted tree: an item that is written has the next
    identifier, and the tree is counted one further; a request that fails
    leaves the count. *)
Lemma create_counted args w n :
  plain_request args → counted (fs w) n →
  match createWorkItem E cfg args false ∅ false w with
  | (inr (Wrote item), w') =>
      c_id item = zero_pad 3 (n + 1) ∧ counted (fs w') (n + 1)
  | (_, w') => counted (fs w') n
  end.
Proof.
  intros [Htpl Hargs] Hn.
  destruct (createWorkItem E cfg args false ∅ false w) as [[e|[|item]] w']
    eqn:Hrun.
  - apply error_keeps_files in Hrun as [Hfiles Hfs].
    destruct Hn as (Hdir & Hmax & Hwidth).
    rewrite <-(item_ids_files (fs w) (fs w')) in Hmax, Hwidth by done.
    split; [|done]. destruct Hfs as [->|(_ & _ & folder & _ & _ & Hmk)]; [done|].
    apply MkdirAll_inr in Hmk as (_ & _ & _ & Hdirs).
    by apply (is_dir_mono (fs w)).
  - by apply createWorkItem_not_listed in Hrun.
  - apply written_item in Hrun as Hitem.
    destruct Hitem as (p & Hp & Htemplate & Htitle & _ & Hid & _ & _ & Hname
                       & _ & Hfiles & Hdirs & _).
    rewrite Halloc, (NextID_counted _ n Hn) in Hid. injection Hid as Hid.
    split; [done|].
    apply parseArgs_from_args in Hp as Hfrom. destruct Hfrom as [Hp0 Hp1].
    assert (p_title p ≠ "") as Htne.
    { intros Hempty. apply createWorkItem_wrote in Hrun
        as (_ & p' & w1 & w2 & Hp' & Hrt & Hti & _).
      rewrite Hp in Hp'. injection Hp' as <-.
      rewrite Hp0, resolve_template_given in Hrt by done.
      injection Hrt as _ <-. unfold resolve_title in Hti.
      by rewrite Hempty, decide_True in Hti. }
    assert (Bytes.mem "/" (c_id item) = false) as Hid_plain.
    { rewrite <-Hid. apply all_digits_no_sep, zero_pad_digits. }
    assert (Bytes.mem "/" (c_title item) = false) as Htitle_plain.
    { rewrite (Htitle Htne). destruct Hp1 as [?|Hin]; [done|]. by apply Hargs. }
    assert (Bytes.mem "/" (c_template item) = false) as Htpl_plain.
    { rewrite Htemplate, Hp0 by by rewrite Hp0.
      destruct args as [|a0 args]; [done|]. apply Hargs. by left. }
    destruct (written_file_plain _ _ _ _ _ _ _ _ _ Hrun Hcfg
                Hid_plain Htitle_plain Htpl_plain) as (_ & Hbase & Hroot).
    assert (item_id (filepath.Base (c_path item))
            = Some ((n + 1)%N, 3 `max` String.length (Itoa (n + 1)))) as Hitem.
    { rewrite Hbase. unfold item_filename. rewrite <-Hid.
      apply item_id_zero_pad. }
    pose proof (item_ids_written _ _ _ _ _ Hfiles Hroot Hitem) as Hel.
    destruct Hn as (Hdir & Hmax & Hwidth). split; [|split].
    + by apply (is_dir_mono (fs w)).
    + rewrite (max_id_written _ _ _ Hel), Hmax. simpl. lia.
    + rewrite (id_width_written _ _ _ Hel), Hwidth. simpl.
      pose proof (Itoa_length_mono n (n + 1) ltac:(lia)). lia.
Qed.

(** Requests one after the other on a counted tree: the items that are
    written get the identifiers that follow, in this order, each padded to
    three digits. *)
Lemma identifiers_in_sequence requests w n :
  Forall plain_request requests → counted (fs w) n →
  let run := create_each E cfg requests w in
  assigned_ids run.1
  = (λ k, zero_pad 3 (n + N.of_nat k)) <$> seq 1 (length (assigned_ids run.1))
  ∧ counted (fs run.2) (n + N.of_nat (length (assigned_ids run.1))).
Proof.
  intros Hreqs. revert w n.
  induction Hreqs as [|args requests Hargs Hreqs IH]; intros w n Hn; simpl.
  { split; [done|]. by rewrite N.add_0_r. }
  pose proof (create_counted args w n Hargs Hn) as Hstep.
  destruct (createWorkItem E cfg args false ∅ false w) as [r w1].
  destruct (create_each E cfg requests w1) as [rs w2] eqn:Hrest.
  assert (∀ m, counted (fs w1) m →
               assigned_ids rs
               = (λ k, zero_pad 3 (m + N.of_nat k))
                   <$> seq 1 (length (assigned_ids rs))
               ∧ counted (fs w2) (m + N.of_nat (length (assigned_ids rs))))
    as Hnext.
  { intros m Hm. specialize (IH w1 m Hm). by rewrite Hrest in IH. }
  destruct r as [e|[|item]]; simpl.
  - by apply Hnext.
  - by apply Hnext.
  - destruct Hstep as [Hid Hn1]. destruct (Hnext _ Hn1) as [Hids Hcount].
    split.
    + rewrite Hid. f_equal.
      rewrite Hids at 1. rewrite <-(fmap_S_seq 1), <-list_fmap_compose.
      apply list_fmap_ext. intros _ k _. simpl. f_equal. lia.
    + replace (n + N.of_nat (S (length (assigned_ids rs))))%N
        with (n + 1 + N.of_nat (length (assigned_ids rs)))%N by lia.
      done.
Qed.

End sequence.

(** From a tree without item, the items written by plain requests are
    numbered 001, 002, ... in the order of their creation, without
    repetition. *)
Lemma identifiers_from_empty_tree E cfg requests w :
  GetNextID E = NextID → plain_folders cfg →
  Forall plain_request requests →
  is_dir (fs w) item_root = true → item_ids (fs w) = [] →
  let ids := assigned_ids (create_each E cfg requests w).1 in
  ids = (λ k, zero_pad 3 (N.of_nat k)) <$> seq 1 (length ids)
  ∧ NoDup ids.
Proof.
  intros Halloc Hcfg Hreqs Hdir Hno ids.
  destruct (identifiers_in_sequence E cfg Halloc Hcfg requests w 0 Hreqs
              (counted_no_item _ Hdir Hno)) as [Hids _].
  fold ids in Hids. split; [done|]. rewrite Hids.
  apply NoDup_fmap_2_strong; [|apply NoDup_seq].
  intros j k _ _ Heq. apply (f_equal digits_value) in Heq.
  rewrite !digits_value_zero_pad in Heq. injection Heq. lia.
Qed.

(** ** The name of the written file *)

(** C8 fails on the code.  The title goes into the file name with its
    slashes, and [filepath.Join] cleans the path: for the title ["a/../b"]
    the element [001-a] is cancelled by the [..] after it, so the item with
    identifier [001] is written to [b.prd.md], a name without identifier;
    for ["x/../../../y"] the file even leaves the status folder and the item
    root. *)
Theorem written_file_name_ignores_identifier :
  (let r := createWorkItem Example.collab Example.cfg ["prd"; "todo"; "a/../b"]
              false ∅ false Example.world in
   c_id <$> written r = Some "001"
   ∧ c_title <$> written r = Some "a/../b"
   ∧ c_template <$> written r = Some "prd"
   ∧ c_folder <$> written r = Some "1_todo"
   ∧ c_filename <$> written r = Some "001-a/../b.prd.md"
   ∧ item_filename "001" "a/../b" "prd" = "001-a/../b.prd.md"
   ∧ c_path <$> written r = Some ".work/1_todo/b.prd.md"
   ∧ filepath.Base ".work/1_todo/b.prd.md" = "b.prd.md"
   ∧ tree_files (fs r.2) = [".work/1_todo/b.prd.md"]
   ∧ size (files (fs r.2)) = 1)
  ∧ (let r := createWorkItem Example.collab Example.cfg
                ["prd"; "todo"; "x/../../../y"] false ∅ false Example.world in
     c_id <$> written r = Some "001"
     ∧ c_folder <$> written r = Some "1_todo"
     ∧ c_path <$> written r = Some "y.prd.md"
     ∧ under_root "y.prd.md" = false
     ∧ is_file (fs r.2) "y.prd.md" = true
     ∧ tree_files (fs r.2) = []
     ∧ size (files (fs r.2)) = 1).
Proof. vm_compute. repeat split. Qed.

(** ** The sequence of identifiers *)

(** C1 fails on the code, for the same reason.  The allocator of the
    specification gives ["001"] on a tree without item; but after an item
    with the title ["x/../../../y"] was written, outside the item root, the
    tree still has no item, and the next item is given ["001"] again. *)
Theorem identifier_assigned_twice :
  NextID Example.tree = inr "001"
  ∧ (let run := create_each Example.collab Example.cfg
                  [["prd"; "todo"; "x/../../../y"];
                   ["prd"; "todo"; "Second item"]] Example.world in
     assigned_ids run.1 = ["001"; "001"]
     ∧ is_file (fs run.2) "y.prd.md" = true
     ∧ tree_files (fs run.2) = [".work/1_todo/001-second-item.prd.md"]
     ∧ size (files (fs run.2)) = 2)
  ∧ (let run := create_each Example.collab Example.cfg
                  [["prd"; "todo"; "a/../b"];
                   ["prd"; "todo"; "Second item"]] Example.world in
     assigned_ids run.1 = ["001"; "001"]
     ∧ is_file (fs run.2) ".work/1_todo/b.prd.md" = true
     ∧ is_file (fs run.2) ".work/1_todo/001-second-item.prd.md" = true
     ∧ size (files (fs run.2)) = 2)
  ∧ (let run := create_each Example.collab Example.cfg
                  [["prd"; "todo"; "First item"];
                   ["prd"; "Second item"];
                   ["task"; "Third item"; "done"]] Example.world in
     assigned_ids run.1 = ["001"; "002"; "003"]).
Proof. vm_compute. repeat split. Qed.

(** ** The example project *)

Lemma example_folders_plain : plain_folders Example.cfg.
Proof.
  intros status folder Hs. apply elem_of_map_to_list in Hs.
  assert (folder ∈ ["2_doing"; "0_backlog"; "1_todo"; "4_done"]) as Hf.
  { apply (list_elem_of_fmap_2 snd) in Hs. revert Hs. by vm_compute. }
  repeat (apply elem_of_cons in Hf as [->|Hf];
          [by repeat constructor|]).
  by apply elem_of_nil in Hf.
Qed.

(** Three requests on the example tree: a run of the lemma above. *)
Example identifiers_of_three_items :
  let requests := [["prd"; "todo"; "First item"]; ["prd"; "Second item"];
                   ["task"; "Third item"; "done"]] in
  let ids := assigned_ids
               (create_each Example.collab Example.cfg requests
                  Example.world).1 in
  ids = ["001"; "002"; "003"] ∧ NoDup ids.
Proof.
  intros requests ids.
  destruct (identifiers_from_empty_tree Example.collab Example.cfg requests
              Example.world eq_refl example_folders_plain) as [_ Hnodup].
  - repeat constructor; (done || (intros a Ha;
      repeat (apply elem_of_cons in Ha as [->|Ha]; [done|]);
      by apply elem_of_nil in Ha)).
  - done.
  - done.
  - split; [by vm_compute | exact Hnodup].
Qed.

(** An interactive run: the template is chosen by number, the title and the
    description are typed. *)
Example interactive_run :
  ∃ item w',
    createWorkItem Example.collab Example.cfg [] true ∅ false
      (Example.typing ["2"; "  My title "; "Some text"])
    = (inr (Wrote item), w')
    ∧ c_template item = "prd" ∧ c_title item = "My title"
    ∧ c_status item = "backlog"
    ∧ c_inputs item !! "description" = Some "Some text"
    ∧ c_path item = ".work/0_backlog/001-my-title.prd.md"
    ∧ stdin w' = [].
Proof. eexists _, _. split; by vm_compute. Qed.

(** * Further properties of the command *)

(** ** Reading the positional arguments *)

(** X1. Reading the arguments fails in one case only: three arguments or more,
    a second one that is not empty, and neither the second nor the third a
    configured status.  The error then quotes these two arguments. *)
Theorem parseArgs_fails_iff D valid args :
  (∃ e, parseArgs D valid args = inl e)
  ↔ ((3 ≤ length args)%nat ∧ nth 1 args "" ≠ ""
     ∧ (nth 1 args "" ∉ D) ∧ (nth 2 args "" ∉ D)).
Proof.
  split.
  - intros [e He]. revert He. unfold parseArgs. cbv zeta.
    repeat (case_bool_decide || case_decide); simpl in *; try done; intros _.
    all: repeat split; (lia || done).
  - intros (Hlen & Hne & H1 & H2).
    exists (AmbiguousArguments (nth 1 args "") (nth 2 args "") valid).
    unfold parseArgs. cbv zeta.
    repeat (case_bool_decide || case_decide); simpl in *; try done; lia.
Qed.

(** X2. What the arguments are read as: the template is the first argument and
    the description the fourth; the status is empty or a configured status
    found in second or third place; the title is empty or the second or
    third argument, and never the argument taken as status when that is not
    empty. *)
Theorem parseArgs_shape D valid args p :
  parseArgs D valid args = inr p →
  p_template p = nth 0 args ""
  ∧ p_description p = nth 3 args ""
  ∧ (p_status p = ""
     ∨ p_status p ∈ D
       ∧ (p_status p = nth 1 args "" ∧ (p_title p = "" ∨ p_title p = nth 2 args "")
          ∨ p_status p = nth 2 args "" ∧ p_title p = nth 1 args ""))
  ∧ (p_title p = "" ∨ p_title p = nth 1 args "" ∨ p_title p = nth 2 args "").
Proof.
  unfold parseArgs. destruct args as [|a0 [|a1 [|a2 [|a3 rest]]]]; simpl.
  all: repeat (case_bool_decide || case_decide); intros [= <-]; simpl.
  all: try lia.
  all: repeat split; auto 10.
Qed.

Lemma parseArgs_shape_witness :
  let D := dom (StatusFolders Example.cfg) in
  ∃ p, parseArgs D [] ["prd"; "Fix bug"; "todo"; "It crashes"] = inr p
       ∧ p_template p = "prd" ∧ p_description p = "It crashes"
       ∧ p_status p = "todo" ∧ p_title p = "Fix bug".
Proof.
  intros D.
  set (p := {| p_template := "prd"; p_title := "Fix bug"; p_status := "todo";
               p_description := "It crashes" |}).
  assert (parseArgs D [] ["prd"; "Fix bug"; "todo"; "It crashes"] = inr p)
    as Hp by (vm_compute; reflexivity).
  exists p. split; [exact Hp|].
  destruct (parseArgs_shape D [] _ p Hp) as (Ht & Hd & _).
  repeat split; done.
Defined.

(** X3. When the second argument is a configured status, the third argument is
    the title whatever it is, a status name included: the first status
    wins. *)
Theorem first_status_wins D valid template s x rest :
  s ∈ D → s ≠ "" →
  parseArgs D valid (template :: s :: x :: rest)
  = inr {| p_template := template; p_title := x; p_status := s;
           p_description := hd "" rest |}.
Proof.
  intros Hs Hne. destruct rest; unfold parseArgs; simpl;
    repeat (case_bool_decide || case_decide);
    simpl in *; subst; try done; try lia.
Qed.

Lemma first_status_wins_witness :
  "todo" ∈ dom (StatusFolders Example.cfg)
  ∧ "done" ∈ dom (StatusFolders Example.cfg)
  ∧ parseArgs (dom (StatusFolders Example.cfg)) [] ["prd"; "todo"; "done"]
    = inr {| p_template := "prd"; p_title := "done"; p_status := "todo";
             p_description := "" |}.
Proof.
  assert ("todo" ∈ dom (StatusFolders Example.cfg)) as Hs
    by (vm_compute; reflexivity).
  split; [exact Hs|]. split; [vm_compute; reflexivity|].
  apply (first_status_wins _ [] "prd" "todo" "done" [] Hs). done.
Defined.

(** ** What a run prints and reads *)

Section terminal.

Lemma printed_nil w : printed w [] = w.
Proof. destruct w. unfold printed. simpl. by rewrite List.app_nil_r. Qed.

Lemma printed_printed w a b : printed (printed w a) b = printed w (a ++ b).
Proof. unfold printed. simpl. by rewrite List.app_assoc. Qed.

Lemma Print_run s w : Print s w = (inr (), printed w [s]).
Proof. done. Qed.

Lemma ReadString_run w :
  ReadString w =
  match stdin w with
  | [] => (inl (ReadError "EOF"), w)
  | line :: _ => (inr (line +:+ String "010" ""), read_line w)
  end.
Proof. unfold ReadString, read_line. by destruct (stdin w). Qed.

Lemma print_numbered_from i entries w :
  for_each i entries (λ i entry,
    Print (Itoa (N.of_nat (i + 1)) +:+ ". " +:+ entry +:+ String "010" "")) w
  = (inr (), printed w (numbered i entries)).
Proof.
  revert i w. induction entries as [|entry rest IH]; intros i w; simpl.
  - by rewrite run_ret, printed_nil.
  - rewrite run_bind, Print_run, IH, printed_printed. done.
Qed.

Lemma print_numbered_run entries w :
  print_numbered entries w = (inr (), printed w (numbered 0 entries)).
Proof. apply print_numbered_from. Qed.

Lemma for_each_prints {A} (f : A → list string) body :
  (∀ i x w, body i x w = (inr (), printed w (f x))) →
  ∀ l i w, for_each i l body w = (inr (), printed w (concat (f <$> l))).
Proof.
  intros Hbody l. induction l as [|x l IH]; intros i w.
  - cbn. by rewrite printed_nil.
  - cbn [for_each]. rewrite run_bind, Hbody, IH, printed_printed. done.
Qed.

Lemma input_lines_run (input : Input) w :
  (Print ("- " +:+ Name input +:+ " (" +:+
           match Type_ input with
           | InputString => "string"
           | InputNumber => "number"
           | InputDateTime => "datetime"
           | InputOther n => n
           end +:+ "): " +:+ Description input +:+ String "010" "") ;;
    if bool_decide (0 < length (Options input))
    then Print ("  Options: " +:+ Bytes.join ", " (Options input)
                +:+ String "010" "")
    else mret ()) w
  = (inr (), printed w (input_lines input)).
Proof.
  rewrite run_bind, Print_run. cbv beta iota.
  unfold input_lines, input_type_name.
  case_bool_decide.
  - by rewrite Print_run, printed_printed.
  - done.
Qed.

Lemma showTemplateInputs_run E cfg template w :
  showTemplateInputs E cfg template w =
  match GetTemplateInputs E (fs w)
          (filepath.Join [".work"; template_file cfg template]) with
  | inl cause => (inl (TemplateInputsError cause), w)
  | inr inputs => (inr (), printed w (inputs_listing template inputs))
  end.
Proof.
  unfold showTemplateInputs. rewrite run_bind. unfold call at 1.
  destruct (GetTemplateInputs _ _ _) as [cause|inputs]; [done|].
  rewrite run_bind, Print_run. unfold inputs_listing.
  generalize ("Available inputs for template '" +:+ template +:+ "':"
              +:+ String "010" "").
  intros header.
  change (header :: concat (input_lines <$> inputs))
    with ([header] ++ concat (input_lines <$> inputs)).
  rewrite <- printed_printed. generalize (printed w [header]).
  intros w1. apply for_each_prints. intros _ input w2.
  apply input_lines_run.
Qed.

Lemma selectTemplate_run cfg w :
  selectTemplate cfg w =
  let templates := range_order w (map_to_list (Templates cfg)).*1 in
  choose templates InvalidTemplateSelection
    (printed w (("Available templates:" +:+ String "010" "")
                :: numbered 0 templates ++ ["Select template (number): "])).
Proof.
  unfold selectTemplate. rewrite run_bind, Print_run.
  rewrite run_bind. unfold range_keys, gets at 1. cbv beta iota.
  rewrite run_bind, print_numbered_run, run_bind, Print_run.
  by rewrite !printed_printed.
Qed.

Lemma promptStringOptions_run prompt options w :
  promptStringOptions prompt options w =
  choose options InvalidOptionSelection
    (printed w ((prompt +:+ String "010" "")
                :: numbered 0 options ++ ["Select option (number): "])).
Proof.
  unfold promptStringOptions. rewrite run_bind, Print_run.
  rewrite run_bind, print_numbered_run, run_bind, Print_run.
  by rewrite !printed_printed.
Qed.

Lemma choose_run entries invalid w :
  choose entries invalid w =
  match stdin w with
  | [] => (inl (ReadError "EOF"), w)
  | line :: _ =>
      match Atoi (TrimSpace (line +:+ String "010" "")) with
      | inr choice =>
          if bool_decide (choice < 1 ∨ Z.of_nat (length entries) < choice)%Z
          then (inl invalid, read_line w)
          else match entries !! Z.to_nat (choice - 1) with
               | Some entry => (inr entry, read_line w)
               | None => (inl invalid, read_line w)
               end
      | inl _ => (inl invalid, read_line w)
      end
  end.
Proof.
  unfold choose. rewrite run_bind, ReadString_run.
  destruct (stdin w) as [|line rest]; [done|].
  destruct (Atoi _) as [|choice]; [done|].
  case_bool_decide; [done|]. by destruct (entries !! _).
Qed.

Lemma promptString_run prompt w :
  promptString prompt w =
  match stdin w with
  | [] => (inl (ReadError "EOF"), printed w [prompt])
  | line :: _ =>
      (inr (TrimSpace (line +:+ String "010" "")),
       read_line (printed w [prompt]))
  end.
Proof.
  unfold promptString. rewrite run_bind, Print_run, run_bind, ReadString_run.
  simpl. by destruct (stdin w).
Qed.

End terminal.

(** ** The terminal during [createWorkItem] *)

Section create_terminal.

Context (E : Collab) (cfg : Config) (validStatuses : list string).
Context (interactive : bool) (inputValues : gmap string string).
Context (template title status description : string).

Lemma create_terminal w r w' :
  create E cfg validStatuses interactive inputValues
         template title status description w = (r, w') →
  (interactive = false →
   stdin w' = stdin w
   ∧ stdout w' = stdout w ++
       match r with
       | inr (Wrote item) => [confirmation (c_id item) (c_folder item)]
       | _ => []
       end)
  ∧ (∀ item, r = inr (Wrote item) →
       last (stdout w') = Some (confirmation (c_id item) (c_folder item))).
Proof.
  unfold create.
  case_decide as Hst.
  { intros [= <- <-]. split; [|done]. by rewrite List.app_nil_r. }
  rewrite run_bind.
  destruct (call (GetNextID E) AllocationError w) as [[e|nextID] w0] eqn:Hid.
  { apply call_run in Hid as [-> _]. intros [= <- <-].
    split; [|done]. by rewrite List.app_nil_r. }
  apply call_run in Hid as [-> _].
  rewrite run_bind. unfold gets at 1. cbv beta iota. rewrite run_bind.
  lazymatch goal with
  | |- match ?x with _ => _ end = _ → _ =>
      destruct x as [[e|inputs] w1] eqn:Hin
  end.
  { intros [= <- <-]. split; [|done]. intros ->.
    rewrite run_ret in Hin. done. }
  assert (interactive = false → w1 = w) as Hw1.
  { intros ->. rewrite run_ret in Hin. congruence. }
  rewrite run_bind.
  destruct (call _ _ w1) as [[e|content] w2] eqn:Hcontent.
  { apply call_run in Hcontent as [-> _]. intros [= <- <-].
    split; [|done]. intros Hi. rewrite (Hw1 Hi). by rewrite List.app_nil_r. }
  apply call_run in Hcontent as [-> _].
  destruct (StatusFolders cfg !! _) as [folder|] eqn:Hfolder; [|done].
  case_decide as Hne.
  { intros [= <- <-]. split; [|done]. intros Hi.
    rewrite (Hw1 Hi). by rewrite List.app_nil_r. }
  rewrite run_bind.
  destruct (syscall _ _ w1) as [[e|[]] w2] eqn:Hmk.
  { apply syscall_run in Hmk as [(? & _ & _ & ->)|(? & _ & [=] & _)].
    intros [= <- <-]. split; [|done]. intros Hi.
    rewrite (Hw1 Hi). by rewrite List.app_nil_r. }
  apply syscall_run in Hmk
    as [(? & _ & [=] & _)|(t1 & _ & _ & _ & Hin2 & Hout2 & _)].
  rewrite run_bind.
  destruct (syscall _ _ w2) as [[e|[]] w3] eqn:Hwr.
  { apply syscall_run in Hwr as [(? & _ & _ & ->)|(? & _ & [=] & _)].
    intros [= <- <-]. split; [|done]. intros Hi.
    rewrite Hin2, Hout2, (Hw1 Hi). by rewrite List.app_nil_r. }
  apply syscall_run in Hwr
    as [(? & _ & [=] & _)|(t2 & _ & _ & _ & Hin3 & Hout3 & _)].
  rewrite run_bind, Print_run. cbv beta iota. rewrite run_ret.
  intros [= <- <-]. simpl. rewrite Hin3, Hout3, Hin2, Hout2. split.
  - intros Hi. by rewrite (Hw1 Hi).
  - intros item [= <-]. simpl. by rewrite last_snoc.
Qed.

End create_terminal.

(** X4. With [--help-inputs] the command only lists: it returns after
    [showTemplateInputs] or with an error, the tree is left as it was and
    nothing is read from the terminal.  It lists the inputs of the first
    argument, and without a template it fails before printing anything. *)
Theorem help_inputs_only_lists E cfg args interactive inputValues w r w' :
  createWorkItem E cfg args interactive inputValues true w = (r, w') →
  fs w' = fs w ∧ stdin w' = stdin w
  ∧ (∀ item, r ≠ inr (Wrote item))
  ∧ (r = inr Listed →
       ∃ inputs,
         GetTemplateInputs E (fs w)
           (filepath.Join [".work"; template_file cfg (nth 0 args "")])
         = inr inputs
         ∧ stdout w' = stdout w ++ inputs_listing (nth 0 args "") inputs)
  ∧ (∀ e, r = inl e →
       w' = w
       ∧ match e with
         | AmbiguousArguments _ _ _ => True
         | HelpInputsNeedsTemplate => nth 0 args "" = ""
         | TemplateInputsError _ => nth 0 args "" ≠ ""
         | _ => False
         end).
Proof.
  rewrite createWorkItem_unfold.
  destruct (parseArgs _ _ _) as [e0|p] eqn:Hp.
  { intros [= <- <-]. split_and!; try done.
    intros e [= <-]. split; [done|].
    unfold parseArgs in Hp. cbv zeta in Hp. revert Hp.
    repeat (case_bool_decide || case_decide); simpl; try done.
    all: by intros [= <-]. }
  assert (p_template p = nth 0 args "") as Htpl.
  { revert Hp. unfold parseArgs. cbv zeta.
    destruct args as [|a0 rest]; simpl;
      repeat (case_bool_decide || case_decide); simpl in *;
      try lia; by intros [= <-]. }
  unfold resolve_template. rewrite Htpl. case_decide as Hempty.
  { intros [= <- <-]. split_and!; try done.
    intros e [= <-]. done. }
  rewrite run_ret, run_bind, showTemplateInputs_run.
  destruct (GetTemplateInputs _ _ _) as [cause|inputs].
  - intros [= <- <-]. split_and!; try done. intros e [= <-]. done.
  - rewrite run_ret. intros [= <- <-]. split_and!; try done.
    intros _. eauto.
Qed.

Lemma help_inputs_only_lists_witness :
  ∃ r w',
    createWorkItem Example.collab Example.cfg ["prd"] false ∅ true
      Example.world = (r, w')
    ∧ r = inr Listed
    ∧ stdout w' =
        ["Available inputs for template 'prd':" +:+ String "010" "";
         "- description (string): Short description" +:+ String "010" ""]
    ∧ fs w' = fs Example.world ∧ stdin w' = stdin Example.world.
Proof.
  eexists _, _. split; [vm_compute; reflexivity|].
  split; [reflexivity|]. split; [vm_compute; reflexivity|].
  refine (let H := help_inputs_only_lists Example.collab Example.cfg ["prd"]
                     false ∅ Example.world _ _ _ in
          conj (proj1 H) (proj1 (proj2 H))).
  vm_compute; reflexivity.
Defined.

(** X5. Without [--interactive] a request that names a template and no title is
    refused with the error on the missing title; nothing is printed,
    allocated or written. *)
Theorem title_required_without_interactive E cfg args inputValues w p :
  parseArgs (dom (StatusFolders cfg)) (valid_statuses cfg w) args = inr p →
  p_template p ≠ "" → p_title p = "" →
  createWorkItem E cfg args false inputValues false w
  = (inl TitleRequired, w).
Proof.
  intros Hp Htpl Htitle. rewrite createWorkItem_unfold, Hp.
  rewrite resolve_template_given by done.
  unfold resolve_title. by rewrite decide_True by done.
Qed.

Lemma title_required_without_interactive_witness :
  createWorkItem Example.collab Example.cfg ["prd"; "todo"] false ∅ false
    Example.world
  = (inl TitleRequired, Example.world).
Proof.
  apply (title_required_without_interactive Example.collab Example.cfg
           ["prd"; "todo"] ∅ Example.world
           {| p_template := "prd"; p_title := ""; p_status := "todo";
              p_description := "" |}).
  - vm_compute; reflexivity.
  - done.
  - reflexivity.
Defined.

(** X6. Without [--interactive] and with a template among the arguments, the
    command reads nothing from the terminal, and prints one line, the
    confirmation, exactly when it has written the item. *)
Theorem batch_run_reads_nothing E cfg args inputValues w r w' :
  nth 0 args "" ≠ "" →
  createWorkItem E cfg args false inputValues false w = (r, w') →
  stdin w' = stdin w
  ∧ stdout w' = stdout w ++
      match r with
      | inr (Wrote item) => [confirmation (c_id item) (c_folder item)]
      | _ => []
      end.
Proof.
  intros Htpl. rewrite createWorkItem_unfold.
  destruct (parseArgs _ _ _) as [e0|p] eqn:Hp.
  { intros [= <- <-]. by rewrite List.app_nil_r. }
  assert (p_template p = nth 0 args "") as Hfirst.
  { revert Hp. unfold parseArgs. cbv zeta.
    destruct args as [|a0 rest]; simpl;
      repeat (case_bool_decide || case_decide); simpl in *;
      try lia; by intros [= <-]. }
  rewrite resolve_template_given by congruence.
  unfold resolve_title. case_decide.
  { intros [= <- <-]. by rewrite List.app_nil_r. }
  rewrite run_ret. intros Hrun.
  by apply create_terminal in Hrun as [Hrun _]; apply Hrun.
Qed.

Lemma batch_run_reads_nothing_witness :
  ∃ r w',
    createWorkItem Example.collab Example.cfg ["prd"; "todo"; "Fix bug"]
      false ∅ false (Example.typing ["ignored"]) = (r, w')
    ∧ c_id <$> written (r, w') = Some "001"
    ∧ stdin w' = stdin (Example.typing ["ignored"])
    ∧ stdout w' = stdout (Example.typing ["ignored"]) ++
        match r with
        | inr (Wrote item) => [confirmation (c_id item) (c_folder item)]
        | _ => []
        end.
Proof.
  eexists _, _. split; [apply surjective_pairing|].
  split; [vm_compute; reflexivity|].
  apply (batch_run_reads_nothing Example.collab Example.cfg
           ["prd"; "todo"; "Fix bug"] ∅ (Example.typing ["ignored"])).
  - done.
  - symmetry. apply surjective_pairing.
Defined.



(** ** What a successful run leaves behind *)

Lemma WriteFile_ok t name data t' :
  WriteFile t name data = inr t' →
  is_dir t (filepath.Dir name) = true ∧ is_dir t name = false
  ∧ t' = put_file t name data.
Proof.
  unfold WriteFile. destruct (is_dir t name); [done|].
  destruct (is_dir t (filepath.Dir name)); [|done]. simpl.
  destruct (_ && _); [done|]. by intros [= <-].
Qed.

Lemma created_item E cfg args interactive inputValues helpInputs w item w' :
  createWorkItem E cfg args interactive inputValues helpInputs w
  = (inr (Wrote item), w') →
  ∃ p w2 t1,
    parseArgs (dom (StatusFolders cfg)) (valid_statuses cfg w) args = inr p
    ∧ fs w2 = fs w ∧ today w2 = today w
    ∧ create E cfg (valid_statuses cfg w) interactive inputValues
        (c_template item) (c_title item) (p_status p) (p_description p) w2
      = (inr (Wrote item), w')
    ∧ ProcessTemplate E (fs w)
        (filepath.Join [".work"; template_file cfg (c_template item)])
        (c_inputs item) = inr (c_content item)
    ∧ MkdirAll (fs w) (filepath.Join [".work"; c_folder item]) = inr t1
    ∧ WriteFile t1 (c_path item) (c_content item) = inr (fs w')
    ∧ if interactive then
        ∃ tis w3,
          GetTemplateInputs E (fs w)
            (filepath.Join [".work"; template_file cfg (c_template item)])
          = inr tis
          ∧ prompt_missing E tis
              (base_inputs inputValues (c_id item) (c_title item)
                 (c_status item) (today w) (p_description p)) w2
            = (inr (c_inputs item), w3)
      else c_inputs item
           = base_inputs inputValues (c_id item) (c_title item)
               (c_status item) (today w) (p_description p).
Proof.
  intros Hrun.
  apply createWorkItem_wrote in Hrun
    as (_ & p & w1 & w2 & Hp & Htpl & Htitle & Hcreate).
  eapply quiet_run in Htpl as (Hfs1 & Hday1 & _);
    [|apply quiet_resolve_template].
  eapply quiet_run in Htitle as (Hfs2 & Hday2 & _);
    [|apply quiet_resolve_title].
  exists p, w2.
  pose proof Hcreate as Hc.
  apply create_wrote in Hc
    as (folder & t1 & w3 & _ & _ & Hstatus & Hid & Hfolder & Hne & Hf
        & Hname & Hpath & Hinputs & Hcontent & Hmk & Hwr).
  exists t1. rewrite Hfs2, Hfs1 in Hcontent, Hmk, Hinputs.
  rewrite Hday2, Hday1 in Hinputs. rewrite <-Hstatus in Hinputs.
  rewrite Hf. split_and!; try done; try congruence.
  destruct interactive; [|done].
  destruct Hinputs as (tis & Htis & Hprompt). eauto.
Qed.

(** X8. After a successful run exactly one file has changed: the item file holds
    the text the template engine returned for the input map, it lies in a
    directory that exists, and the other files, the read-only and the
    unreadable marks are as before; directories are only added; the last
    line printed is the confirmation. *)
Theorem item_written E cfg args interactive inputValues helpInputs
    w item w' :
  createWorkItem E cfg args interactive inputValues helpInputs w
  = (inr (Wrote item), w') →
  files (fs w') !! c_path item = Some (c_content item)
  ∧ (∀ q, q ≠ c_path item → files (fs w') !! q = files (fs w) !! q)
  ∧ is_dir (fs w') (filepath.Dir (c_path item)) = true
  ∧ is_dir (fs w') (c_path item) = false
  ∧ dirs (fs w) ⊆ dirs (fs w')
  ∧ readonly (fs w') = readonly (fs w)
  ∧ unreadable (fs w') = unreadable (fs w)
  ∧ ProcessTemplate E (fs w)
      (filepath.Join [".work"; template_file cfg (c_template item)])
      (c_inputs item) = inr (c_content item)
  ∧ last (stdout w') = Some (confirmation (c_id item) (c_folder item)).
Proof.
  intros Hrun.
  apply created_item in Hrun
    as (p & w2 & t1 & _ & _ & _ & Hcreate & Hcontent & Hmk & Hwr & _).
  apply create_terminal in Hcreate as [_ Hlast].
  apply WriteFile_ok in Hwr as (Hdir & Hnodir & Hfs).
  apply MkdirAll_inr in Hmk as (Hfiles & Hro & Hun & Hdirs).
  rewrite Hfs. unfold is_dir in *. simpl. rewrite Hfiles, Hro, Hun.
  split_and!; try done.
  - by rewrite lookup_insert_eq.
  - intros q Hq. by rewrite lookup_insert_ne.
  - by apply Hlast.
Qed.

Lemma item_written_witness :
  ∃ item w',
    createWorkItem Example.collab Example.cfg ["prd"; "todo"; "Fix bug"]
      false ∅ false Example.world = (inr (Wrote item), w')
    ∧ c_path item = ".work/1_todo/001-fix-bug.prd.md"
    ∧ files (fs w') !! c_path item = Some (c_content item)
    ∧ last (stdout w') = Some (confirmation (c_id item) (c_folder item)).
Proof.
  eexists _, _. split; [vm_compute; reflexivity|].
  split; [reflexivity|].
  refine (let H := item_written Example.collab Example.cfg
                     ["prd"; "todo"; "Fix bug"] false ∅ false
                     Example.world _ _ _ in
          conj (proj1 H) (proj2 (proj2 (proj2 (proj2 (proj2 (proj2 (proj2
            (proj2 H))))))))).
  vm_compute; reflexivity.
Defined.

(** X9. The command does not check the template name against the configured
    templates: for a name the configuration does not know, the template
    engine is asked to render the path [.work], and its answer is written
    under the unknown name. *)
Theorem unknown_template_not_refused E cfg args interactive inputValues
    helpInputs w item w' :
  createWorkItem E cfg args interactive inputValues helpInputs w
  = (inr (Wrote item), w') →
  Templates cfg !! c_template item = None →
  ProcessTemplate E (fs w) ".work" (c_inputs item) = inr (c_content item)
  ∧ c_filename item
    = c_id item +:+ "-" +:+ kebabCase (c_title item) +:+ "."
      +:+ c_template item +:+ ".md".
Proof.
  intros Hrun Hnone.
  pose proof Hrun as Hc.
  apply created_item in Hc as (p & w2 & t1 & _ & _ & _ & Hcreate & Hcontent & _).
  apply create_wrote in Hcreate as (? & ? & ? & _ & _ & _ & _ & _ & _ & _
                                    & Hname & _).
  unfold template_file in Hcontent. rewrite Hnone in Hcontent.
  split; [exact Hcontent | exact Hname].
Qed.

Lemma unknown_template_not_refused_witness :
  ∃ item w',
    createWorkItem Example.collab Example.cfg ["memo"; "todo"; "Fix bug"]
      false ∅ false Example.world = (inr (Wrote item), w')
    ∧ Templates Example.cfg !! c_template item = None
    ∧ c_path item = ".work/1_todo/001-fix-bug.memo.md"
    ∧ ProcessTemplate Example.collab (fs Example.world) ".work"
        (c_inputs item) = inr (c_content item).
Proof.
  eexists _, _. split; [vm_compute; reflexivity|].
  split; [vm_compute; reflexivity|]. split; [reflexivity|].
  refine (proj1 (unknown_template_not_refused Example.collab Example.cfg
                   ["memo"; "todo"; "Fix bug"] false ∅ false
                   Example.world _ _ _ _)).
  - vm_compute; reflexivity.
  - vm_compute; reflexivity.
Defined.

(** ** The inputs of an interactive run *)

Lemma prompt_missing_complete E l (inputs inputs' : gmap string string) w w' :
  prompt_missing E l inputs w = (inr inputs', w') →
  (∀ input, input ∈ l → is_Some (inputs' !! Name input))
  ∧ (∀ k, inputs' !! k = inputs !! k
          ∨ inputs !! k = None ∧ ∃ input, input ∈ l ∧ Name input = k).
Proof.
  revert inputs w. induction l as [|input l IH]; intros inputs w; simpl.
  - intros [= <- _]. split; [by intros ? ?%elem_of_nil|auto].
  - destruct (inputs !! Name input) as [v|] eqn:Hname.
    + intros Hrun. pose proof (prompt_missing_keeps _ _ _ _ _ _ _ _ Hrun Hname).
      apply IH in Hrun as [Hall Hkeys]. split.
      * intros i [->|Hi]%elem_of_cons; [eauto|auto].
      * intros k. destruct (Hkeys k) as [?|(? & i & ? & ?)]; [auto|].
        right. split; [done|]. exists i. split; [by right|done].
    + rewrite run_bind.
      destruct (promptForInput E input w) as [[e|value] w1]; [done|].
      intros Hrun.
      pose proof (prompt_missing_keeps _ _ _ _ _ _ (Name input) value Hrun)
        as Hkept.
      rewrite lookup_insert_eq in Hkept. specialize (Hkept eq_refl).
      apply IH in Hrun as [Hall Hkeys]. split.
      * intros i [->|Hi]%elem_of_cons; [eauto|auto].
      * intros k. destruct (decide (k = Name input)) as [->|Hk].
        { right. split; [done|]. exists input. split; [by left|done]. }
        destruct (Hkeys k) as [Heq|(Hnone & i & ? & ?)].
        { left. by rewrite lookup_insert_ne in Heq. }
        right. rewrite lookup_insert_ne in Hnone by done.
        split; [done|]. exists i. split; [by right|done].
Qed.

(** X10. With [--interactive] every input the template declares has a value in
    the map handed to the template engine.  The values that were there
    before the questions (computed, positional or given by the caller) are
    kept, and a question only ever adds the name of a declared input. *)
Theorem interactive_inputs_complete E cfg args inputValues helpInputs
    w item w' :
  createWorkItem E cfg args true inputValues helpInputs w
  = (inr (Wrote item), w') →
  ∃ p declared,
    parseArgs (dom (StatusFolders cfg)) (valid_statuses cfg w) args = inr p
    ∧ GetTemplateInputs E (fs w)
        (filepath.Join [".work"; template_file cfg (c_template item)])
      = inr declared
    ∧ (∀ input, input ∈ declared → is_Some (c_inputs item !! Name input))
    ∧ (∀ k,
         let before :=
           base_inputs inputValues (c_id item) (c_title item)
             (c_status item) (today w) (p_description p) !! k in
         c_inputs item !! k = before
         ∨ before = None ∧ ∃ input, input ∈ declared ∧ Name input = k).
Proof.
  intros Hrun.
  apply created_item in Hrun
    as (p & w2 & t1 & Hp & _ & _ & _ & _ & _ & _ & tis & w3 & Htis & Hprompt).
  exists p, tis. split; [done|]. split; [done|].
  by apply prompt_missing_complete in Hprompt.
Qed.

Lemma interactive_inputs_complete_witness :
  ∃ item w',
    createWorkItem Example.collab Example.cfg ["prd"] true ∅ false
      (Example.typing ["My title"; "Some text"]) = (inr (Wrote item), w')
    ∧ c_inputs item !! "description" = Some "Some text"
    ∧ ∃ p declared,
        parseArgs (dom (StatusFolders Example.cfg))
          (valid_statuses Example.cfg
             (Example.typing ["My title"; "Some text"])) ["prd"] = inr p
        ∧ GetTemplateInputs Example.collab
            (fs (Example.typing ["My title"; "Some text"]))
            (filepath.Join
               [".work"; template_file Example.cfg (c_template item)])
          = inr declared
        ∧ (∀ input, input ∈ declared → is_Some (c_inputs item !! Name input))
        ∧ (∀ k,
             let before :=
               base_inputs ∅ (c_id item) (c_title item) (c_status item)
                 (today (Example.typing ["My title"; "Some text"]))
                 (p_description p) !! k in
             c_inputs item !! k = before
             ∨ before = None ∧ ∃ input, input ∈ declared ∧ Name input = k).
Proof.
  eexists _, _. split; [vm_compute; reflexivity|].
  split; [vm_compute; reflexivity|].
  refine (interactive_inputs_complete Example.collab Example.cfg ["prd"] ∅
            false (Example.typing ["My title"; "Some text"]) _ _ _).
  vm_compute; reflexivity.
Defined.

(** ** The status folder *)

(** X11. A status whose configured folder is the empty string passes the status
    check, but no item is ever written for it, and the tree stays as it
    was. *)
Theorem empty_status_folder_never_written E cfg args interactive inputValues
    helpInputs w p r w' :
  parseArgs (dom (StatusFolders cfg)) (valid_statuses cfg w) args = inr p →
  StatusFolders cfg !! resolve_status cfg (p_status p) = Some "" →
  createWorkItem E cfg args interactive inputValues helpInputs w = (r, w') →
  (∀ item, r ≠ inr (Wrote item)) ∧ fs w' = fs w.
Proof.
  intros Hp Hfolder. rewrite createWorkItem_unfold, Hp.
  destruct (resolve_template _ _ _ w) as [[e0|template] w1] eqn:Htpl;
    eapply quiet_run in Htpl as (Hfs1 & _);
    try apply quiet_resolve_template.
  { by intros [= <- <-]. }
  destruct helpInputs.
  { rewrite run_bind, showTemplateInputs_run.
    destruct (GetTemplateInputs _ _ _); by intros [= <- <-]. }
  destruct (resolve_title _ _ w1) as [[e0|title] w2] eqn:Htitle;
    eapply quiet_run in Htitle as (Hfs2 & _);
    try apply quiet_resolve_title.
  { intros [= <- <-]. split; [done|congruence]. }
  intros Hrun. eapply empty_folder_fails in Hrun as [[e ->] Hfs]; [|done].
  split; [done|congruence].
Qed.

Lemma empty_status_folder_never_written_witness :
  let cfg := {| StatusFolders := {[ "todo" := "" ]};
                Templates := Templates Example.cfg;
                DefaultStatus := "todo" |} in
  ∃ r w',
    createWorkItem Example.collab cfg ["prd"; "Fix bug"] false ∅ false
      Example.world = (r, w')
    ∧ r = inl (InvalidStatusFolder "todo")
    ∧ (∀ item, r ≠ inr (Wrote item)) ∧ fs w' = fs Example.world.
Proof.
  intros cfg. eexists _, _. split; [vm_compute; reflexivity|].
  split; [reflexivity|].
  apply (empty_status_folder_never_written Example.collab cfg
           ["prd"; "Fix bug"] false ∅ false Example.world
           {| p_template := "prd"; p_title := "Fix bug"; p_status := "";
              p_description := "" |}).
  - vm_compute; reflexivity.
  - vm_compute; reflexivity.
  - vm_compute; reflexivity.
Defined.

(** ** The path of the item *)




(** ** White space and numbers typed at a prompt *)

Section typed_text.

Lemma rev_app_spec s t : String.rev_app s t = String.rev s +:+ t.
Proof.
  unfold String.rev. revert t. induction s as [|c s IH]; intros t; simpl.
  - done.
  - rewrite (IH (String c t)), (IH (String c "")), app_assoc. done.
Qed.

Lemma rev_cons c s : String.rev (String c s) = String.rev s +:+ String c "".
Proof. unfold String.rev at 1. simpl. apply rev_app_spec. Qed.

Lemma rev_app s t : String.rev (s +:+ t) = String.rev t +:+ String.rev s.
Proof.
  induction s as [|c s IH].
  - by rewrite app_nil_l, app_nil_r.
  - rewrite app_cons, !rev_cons, IH, app_assoc. done.
Qed.

Lemma rev_involutive s : String.rev (String.rev s) = s.
Proof.
  induction s as [|c s IH]; [done|].
  rewrite rev_cons, rev_app, IH. done.
Qed.

Lemma trim_left_clean s : starts_clean s → trim_left s = s.
Proof. destruct s as [|c s]; [done|]. simpl. by intros ->. Qed.





(** A line typed without white space at its ends is returned as typed. *)
Lemma TrimSpace_line s : trimmed s → TrimSpace (s +:+ String "010" "") = s.
Proof.
  intros [Hs Hr]. unfold TrimSpace. destruct s as [|c s]; [done|].
  rewrite (trim_left_clean (String c s +:+ _)) by by rewrite app_cons.
  rewrite rev_app. change (String.rev (String "010" "")) with (String "010" "").
  rewrite app_cons. simpl. rewrite app_nil_l.
  by rewrite trim_left_clean, rev_involutive.
Qed.

Lemma all_digits_app s t : all_digits (s +:+ t) = all_digits s && all_digits t.
Proof.
  unfold all_digits. induction s as [|c s IH]; [done|].
  rewrite app_cons. simpl. by rewrite IH, andb_assoc.
Qed.

Lemma all_digits_rev s : all_digits (String.rev s) = all_digits s.
Proof.
  induction s as [|c s IH]; [done|].
  rewrite rev_cons, all_digits_app, IH. unfold all_digits. simpl.
  by rewrite andb_true_r, andb_comm.
Qed.

Lemma digit_no_space c : is_digit c = true → Ascii.is_space c = false.
Proof. by destruct c as [[] [] [] [] [] [] [] []]. Qed.

Lemma digit_no_sign c :
  is_digit c = true → c ≠ "-"%char ∧ c ≠ "+"%char.
Proof. by destruct c as [[] [] [] [] [] [] [] []]. Qed.

Lemma digits_starts_clean s : all_digits s = true → starts_clean s.
Proof.
  destruct s as [|c s]; [done|]. unfold all_digits. simpl.
  intros [Hc _]%andb_true_iff. by apply digit_no_space.
Qed.

Lemma digits_trimmed s : all_digits s = true → trimmed s.
Proof.
  intros Hs. split; apply digits_starts_clean; [done|].
  by rewrite all_digits_rev.
Qed.


(** [strconv.Atoi] reads back what [strconv.Itoa] prints. *)
Lemma Atoi_Itoa n : (Z.of_N n < 2 ^ 63)%Z → Atoi (Itoa n) = inr (Z.of_N n).
Proof.
  intros Hn. pose proof (Itoa_digits n) as Hd.
  pose proof (digits_value_zero_pad 0 n) as Hv.
  change (zero_pad 0 n) with (Itoa n) in Hv.
  unfold Atoi. destruct (Itoa n) as [|c s] eqn:Hs.
  { by apply Itoa_nonempty in Hs. }
  assert (is_digit c = true) as Hc.
  { unfold all_digits in Hd. simpl in Hd. by apply andb_true_iff in Hd as [? _]. }
  apply digit_no_sign in Hc as [Hminus Hplus].
  assert (match String c s with
          | String "-" r => (true, r)
          | String "+" r => (false, r)
          | _ => (false, String c s)
          end = (false, String c s)) as ->.
  { destruct c as [[] [] [] [] [] [] [] []]; done. }
  rewrite Hv. rewrite bool_decide_eq_true_2 by lia. done.
Qed.

End typed_text.

(** ** The prompts *)

Section prompts.


Lemma promptNumber_run prompt w :
  promptNumber prompt w =
  match stdin w with
  | [] => (inl (ReadError "EOF"), printed w [prompt])
  | line :: _ =>
      let v := TrimSpace (line +:+ String "010" "") in
      match Atoi v with
      | inl cause => (inl (InvalidNumber cause), read_line (printed w [prompt]))
      | inr _ => (inr v, read_line (printed w [prompt]))
      end
  end.
Proof.
  unfold promptNumber. rewrite run_bind, Print_run, run_bind, ReadString_run.
  simpl. destruct (stdin w) as [|line rest]; [done|].
  by destruct (Atoi _).
Qed.

Lemma promptDateTime_run E prompt format w :
  let asked := printed w [prompt +:+ " (format: " +:+ format +:+ "): "] in
  promptDateTime E prompt format w =
  match stdin w with
  | [] => (inl (ReadError "EOF"), asked)
  | line :: _ =>
      let v := TrimSpace (line +:+ String "010" "") in
      match time_Parse E format v with
      | Some cause => (inl (InvalidDate cause), read_line asked)
      | None => (inr v, read_line asked)
      end
  end.
Proof.
  unfold promptDateTime. rewrite run_bind, Print_run, run_bind, ReadString_run.
  simpl. destruct (stdin w) as [|line rest]; [done|].
  by destruct (time_Parse _ _ _).
Qed.

Lemma choose_member entries invalid w v w' :
  choose entries invalid w = (inr v, w') →
  v ∈ entries ∧ w' = read_line w ∧ ∃ line, stdin w = line :: stdin w'.
Proof.
  rewrite choose_run. destruct (stdin w) as [|line rest] eqn:Hin; [done|].
  destruct (Atoi _) as [|choice]; [done|].
  case_bool_decide; [done|].
  destruct (entries !! _) as [entry|] eqn:Hentry; [|done].
  intros [= <- <-]. split; [by eapply list_elem_of_lookup_2|].
  split; [done|]. exists line. simpl. by rewrite Hin.
Qed.

Lemma choose_numbered entries invalid w k v rest :
  entries !! k = Some v →
  (Z.of_nat (length entries) < 2 ^ 63)%Z →
  stdin w = Itoa (N.of_nat (k + 1)) :: rest →
  choose entries invalid w = (inr v, read_line w).
Proof.
  intros Hk Hlen Hin. rewrite choose_run, Hin.
  pose proof (lookup_lt_Some _ _ _ Hk) as Hlt.
  rewrite TrimSpace_line by apply digits_trimmed, Itoa_digits.
  rewrite Atoi_Itoa by lia.
  rewrite bool_decide_eq_false_2 by lia.
  replace (Z.to_nat (Z.of_N (N.of_nat (k + 1)) - 1)) with k by lia.
  by rewrite Hk.
Qed.

Lemma numbered_lookup i entries k v :
  entries !! k = Some v →
  numbered i entries !! k
  = Some (Itoa (N.of_nat (i + k + 1)) +:+ ". " +:+ v +:+ String "010" "").
Proof.
  revert i k. induction entries as [|entry rest IH]; intros i k; [done|].
  destruct k as [|k]; simpl.
  - intros [= ->]. by rewrite Nat.add_0_r.
  - intros Hk. rewrite (IH (S i) k Hk). do 4 f_equal. lia.
Qed.

End prompts.


(** X14. What [promptStringOptions] answers is one of the options.  One line has
    been read, the menu has been printed (the prompt, the numbered options,
    the request for a number) and the tree is as before. *)
Theorem promptStringOptions_member prompt options w v w' :
  promptStringOptions prompt options w = (inr v, w') →
  v ∈ options
  ∧ (∃ line, stdin w = line :: stdin w')
  ∧ stdout w' = stdout w ++ (prompt +:+ String "010" "")
                  :: numbered 0 options ++ ["Select option (number): "]
  ∧ fs w' = fs w.
Proof.
  rewrite promptStringOptions_run. intros Hrun.
  apply choose_member in Hrun as (Hv & -> & line & Hline).
  split; [done|]. split; [by exists line|]. done.
Qed.

Lemma promptStringOptions_member_witness :
  ∃ v w',
    promptStringOptions "Enter priority (How urgent): " ["low"; "high"]
      (Example.typing [" 2 "; "more"]) = (inr v, w')
    ∧ v = "high" ∧ stdin w' = ["more"]
    ∧ v ∈ ["low"; "high"].
Proof.
  eexists _, _. split; [vm_compute; reflexivity|].
  split; [reflexivity|]. split; [reflexivity|].
  refine (proj1 (promptStringOptions_member "Enter priority (How urgent): "
                   ["low"; "high"] (Example.typing [" 2 "; "more"]) _ _ _)).
  vm_compute; reflexivity.
Defined.

(** X15. The number printed in front of an option selects it: for the [k]-th
    option the menu shows [k. option], and typing [k] makes
    [promptStringOptions] answer that option. *)
Theorem promptStringOptions_numbered prompt options k v :
  options !! k = Some v →
  (Z.of_nat (length options) < 2 ^ 63)%Z →
  let n := Itoa (N.of_nat (k + 1)) in
  let menu := (prompt +:+ String "010" "")
              :: numbered 0 options ++ ["Select option (number): "] in
  n +:+ ". " +:+ v +:+ String "010" "" ∈ menu
  ∧ ∀ w rest,
      stdin w = n :: rest →
      promptStringOptions prompt options w = (inr v, read_line (printed w menu)).
Proof.
  intros Hk Hlen n menu. split.
  - unfold menu. apply elem_of_cons. right. apply elem_of_app. left.
    eapply list_elem_of_lookup_2. by apply (numbered_lookup 0).
  - intros w rest Hin. rewrite promptStringOptions_run.
    by apply (choose_numbered _ _ _ k v rest).
Qed.

Lemma promptStringOptions_numbered_witness :
  "2. high" +:+ String "010" ""
    ∈ ("Enter priority: " +:+ String "010" "")
      :: numbered 0 ["low"; "high"] ++ ["Select option (number): "]
  ∧ ∀ w rest,
      stdin w = "2" :: rest →
      promptStringOptions "Enter priority: " ["low"; "high"] w
      = (inr "high",
         read_line (printed w (("Enter priority: " +:+ String "010" "")
                               :: numbered 0 ["low"; "high"]
                               ++ ["Select option (number): "]))).
Proof.
  apply (promptStringOptions_numbered "Enter priority: " ["low"; "high"]
           1 "high").
  - reflexivity.
  - vm_compute; reflexivity.
Defined.

(** X16. What [selectTemplate] answers is a key of [cfg.Templates] (the order of
    the menu is the one the [range] loop happens to take), and typing the
    number shown in front of a template selects it. *)
Theorem selectTemplate_choice cfg w :
  fair_range w →
  (Z.of_nat (size (Templates cfg)) < 2 ^ 63)%Z →
  let templates := range_order w (map_to_list (Templates cfg)).*1 in
  let menu := ("Available templates:" +:+ String "010" "")
              :: numbered 0 templates ++ ["Select template (number): "] in
  (∀ v w', selectTemplate cfg w = (inr v, w') →
           is_Some (Templates cfg !! v)
           ∧ w' = read_line (printed w menu)
           ∧ ∃ line, stdin w = line :: stdin w')
  ∧ (∀ k v rest,
       templates !! k = Some v →
       stdin w = Itoa (N.of_nat (k + 1)) :: rest →
       selectTemplate cfg w = (inr v, read_line (printed w menu)))
  ∧ (∀ v, is_Some (Templates cfg !! v) → ∃ k, templates !! k = Some v).
Proof.
  intros Hfair Hsize templates menu.
  assert (∀ v, v ∈ templates ↔ is_Some (Templates cfg !! v)) as Hkeys.
  { intros v. unfold templates. rewrite (Hfair _).
    rewrite list_elem_of_fmap. split.
    - intros ([k x] & -> & Hkx). apply elem_of_map_to_list in Hkx. eauto.
    - intros [x Hx]. exists (v, x). split; [done|].
      by apply elem_of_map_to_list. }
  assert (length templates = size (Templates cfg)) as Hlen.
  { unfold templates. rewrite (Hfair _), length_fmap.
    apply length_map_to_list. }
  split_and!.
  - intros v w'. rewrite selectTemplate_run. cbv zeta.
    fold templates. fold menu. intros Hrun.
    apply choose_member in Hrun as (Hv & -> & line & Hline).
    split; [by apply Hkeys|]. split; [done|]. by exists line.
  - intros k v rest Hk Hin. rewrite selectTemplate_run. cbv zeta.
    fold templates. fold menu.
    apply (choose_numbered _ _ _ k v rest); [done|lia|done].
  - intros v Hv. apply Hkeys in Hv. by apply list_elem_of_lookup_1.
Qed.

Lemma selectTemplate_choice_witness :
  fair_range (Example.typing ["1"])
  ∧ ∃ v w',
      selectTemplate Example.cfg (Example.typing ["1"]) = (inr v, w')
      ∧ is_Some (Templates Example.cfg !! v) ∧ stdin w' = [].
Proof.
  assert (fair_range (Example.typing ["1"])) as Hfair by (by intros keys).
  split; [exact Hfair|].
  destruct (selectTemplate_choice Example.cfg (Example.typing ["1"]) Hfair)
    as (Hmem & Hnum & _).
  { vm_compute; reflexivity. }
  eexists _, _. split.
  - apply (Hnum 0%nat _ []); vm_compute; reflexivity.
  - split; [|reflexivity].
    refine (proj1 (Hmem _ _ _)).
    apply (Hnum 0%nat _ []); vm_compute; reflexivity.
Defined.







(** X20. At the end of the input every question fails with [EOF], whatever the
    type of the input, after its prompt has been printed; the tree is not
    touched. *)
Theorem promptForInput_at_end_of_input E input w :
  stdin w = [] →
  ∃ out,
    promptForInput E input w = (inl (ReadError "EOF"), printed w out)
    ∧ out ≠ [].
Proof.
  intros Hin. unfold promptForInput. destruct (Type_ input).
  - case_bool_decide.
    + rewrite promptStringOptions_run, choose_run. simpl. rewrite Hin. eauto.
    + rewrite promptString_run, Hin. eauto.
  - rewrite promptNumber_run, Hin. eauto.
  - rewrite promptDateTime_run, Hin. eauto.
  - rewrite promptString_run, Hin. eauto.
Qed.

Lemma promptForInput_at_end_of_input_witness :
  ∃ out,
    promptForInput Example.collab
      {| Name := "due"; Type_ := InputDateTime; Description := "Due date";
         Options := []; DateFormat := "2006-01-02" |} Example.world
    = (inl (ReadError "EOF"), printed Example.world out)
    ∧ out ≠ [].
Proof.
  apply (promptForInput_at_end_of_input Example.collab _ Example.world).
  reflexivity.
Defined.

(** ** The alphabet of [kebabCase] *)


(** ** The listing of [showTemplateInputs] *)

Lemma elem_of_concat {A} (x : A) l ls : x ∈ l → l ∈ ls → x ∈ concat ls.
Proof.
  intros Hx. induction ls as [|l' ls IH]; [by intros ?%elem_of_nil|].
  intros [<-|Hl]%elem_of_cons; simpl; apply elem_of_app; auto.
Qed.

(** X22. [showTemplateInputs] reads the inputs of the configured file of the
    template.  When that fails it prints nothing and reports the cause;
    otherwise it prints a header that names the template, then for every
    declared input a line with its name and its description, and for every
    input with options a line with all of them: in all, one line per input
    and one more per input with options.  It reads nothing and leaves the
    tree as it is. *)
Theorem showTemplateInputs_lists_inputs E cfg template w r w' :
  showTemplateInputs E cfg template w = (r, w') →
  fs w' = fs w ∧ stdin w' = stdin w
  ∧ match GetTemplateInputs E (fs w)
            (filepath.Join [".work"; template_file cfg template]) with
    | inl cause => r = inl (TemplateInputsError cause) ∧ w' = w
    | inr inputs =>
        r = inr ()
        ∧ ∃ header lines,
            stdout w' = stdout w ++ header :: lines
            ∧ Bytes.contains header template
            ∧ length lines
              = (length inputs
                 + length (filter (λ input, Options input ≠ []) inputs))%nat
            ∧ ∀ input, input ∈ inputs →
                (∃ line, line ∈ lines
                         ∧ Bytes.contains line (Name input)
                         ∧ Bytes.contains line (Description input))
                ∧ (Options input ≠ [] →
                   ∃ line, line ∈ lines
                           ∧ ∀ o, o ∈ Options input → Bytes.contains line o)
    end.
Proof.
  rewrite showTemplateInputs_run.
  destruct (GetTemplateInputs _ _ _) as [cause|inputs]; intros [= <- <-].
  { done. }
  split; [done|]. split; [done|]. split; [done|].
  eexists _, (concat (input_lines <$> inputs)). split; [done|].
  split. { apply contains_app_r, contains_app_l, contains_refl. }
  split.
  - induction inputs as [|input rest IH]; [done|].
    change (concat (input_lines <$> input :: rest))
      with (input_lines input ++ concat (input_lines <$> rest)).
    rewrite length_app, IH, filter_cons.
    unfold input_lines at 1.
    destruct (Options input); simpl; [done|lia].
  - intros input Hin.
    assert (∀ line, line ∈ input_lines input →
                    line ∈ concat (input_lines <$> inputs)) as Hsub.
    { intros line Hline. apply (elem_of_concat _ (input_lines input)); [done|].
      apply list_elem_of_fmap. eauto. }
    split.
    + eexists. split; [apply Hsub, elem_of_cons; left; reflexivity|].
      split.
      * apply contains_app_r, contains_app_l, contains_refl.
      * do 5 apply contains_app_r. apply contains_app_l, contains_refl.
    + intros Hopts. eexists. split.
      * apply Hsub. unfold input_lines.
        rewrite bool_decide_eq_true_2
          by (destruct (Options input); [done|simpl; lia]).
        apply elem_of_cons. right. apply elem_of_cons. left. reflexivity.
      * intros o Ho. apply contains_app_r, contains_app_l.
        by apply contains_join.
Qed.

Lemma showTemplateInputs_lists_inputs_witness :
  ∃ r w',
    showTemplateInputs Example.collab Example.cfg "task" Example.world
    = (r, w')
    ∧ stdout w' =
        ["Available inputs for template 'task':" +:+ String "010" "";
         "- description (string): Short description" +:+ String "010" ""]
    ∧ fs w' = fs Example.world.
Proof.
  eexists _, _. split; [vm_compute; reflexivity|].
  split; [reflexivity|].
  refine (proj1 (showTemplateInputs_lists_inputs Example.collab Example.cfg
                   "task" Example.world _ _ _)).
  vm_compute; reflexivity.
Defined.

(** ** What [--interactive] and [--input] change *)

Lemma prompt_missing_nothing E l (inputs : gmap string string) w :
  (∀ input, input ∈ l → is_Some (inputs !! Name input)) →
  prompt_missing E l inputs w = (inr inputs, w).
Proof.
  induction l as [|input l IH]; intros Hall; simpl; [done|].
  destruct (Hall input) as [v ->]; [by left|].
  apply IH. intros i Hi. apply Hall. by right.
Qed.

Lemma supplied_base inputValues nextID title status created description k :
  supplied inputValues description k →
  is_Some (base_inputs inputValues nextID title status created description
           !! k).
Proof.
  rewrite base_inputs_lookup. unfold input_by_precedence, supplied.
  destruct (inputValues !! k) as [v|]; [eauto|].
  intros [Hk|[[? [=]]|[-> Hd]]].
  - case_decide; [eauto|]. unfold computed_field.
    repeat (apply elem_of_cons in Hk as [->|Hk]; [by eauto|]).
    by apply elem_of_nil in Hk.
  - rewrite decide_True by done. eauto.
Qed.

(** X23. When every input the template declares has a value before any question
    (a computed field, a value given by the caller, or the positional
    description), [--interactive] changes nothing for a request that names
    its template and its title: the run is the one without the flag. *)
Theorem interactive_asks_nothing_when_complete E cfg args inputValues
    w p declared :
  parseArgs (dom (StatusFolders cfg)) (valid_statuses cfg w) args = inr p →
  p_template p ≠ "" → p_title p ≠ "" →
  GetTemplateInputs E (fs w)
    (filepath.Join [".work"; template_file cfg (p_template p)]) = inr declared →
  (∀ input, input ∈ declared →
            supplied inputValues (p_description p) (Name input)) →
  createWorkItem E cfg args true inputValues false w
  = createWorkItem E cfg args false inputValues false w.
Proof.
  intros Hp Htpl Htitle Hdeclared Hall.
  rewrite !createWorkItem_unfold, Hp.
  rewrite !resolve_template_given by done.
  rewrite !resolve_title_given by done.
  unfold create. case_decide; [done|].
  rewrite !run_bind.
  destruct (call (GetNextID E) AllocationError w) as [[e|nextID] w0] eqn:Hid;
    [done|].
  apply call_run in Hid as [-> _].
  rewrite !run_bind. unfold gets at 1 2. cbv beta iota. rewrite !run_bind.
  lazymatch goal with
  | |- match ?x with _ => _ end = match ?y with _ => _ end =>
      assert (x = y) as ->; [|done]
  end.
  cbv beta iota zeta. unfold call. rewrite Hdeclared, run_ret.
  apply prompt_missing_nothing. intros input Hin.
  apply supplied_base. auto.
Qed.

Lemma interactive_asks_nothing_when_complete_witness :
  createWorkItem Example.collab Example.cfg
    ["prd"; "todo"; "Fix bug"; "It crashes"] true ∅ false
    (Example.typing ["never read"])
  = createWorkItem Example.collab Example.cfg
      ["prd"; "todo"; "Fix bug"; "It crashes"] false ∅ false
      (Example.typing ["never read"]).
Proof.
  apply (interactive_asks_nothing_when_complete Example.collab Example.cfg
           _ ∅ (Example.typing ["never read"])
           {| p_template := "prd"; p_title := "Fix bug"; p_status := "todo";
              p_description := "It crashes" |}
           [ {| Name := "description"; Type_ := InputString;
                Description := "Short description"; Options := [];
                DateFormat := "" |} ]).
  - vm_compute; reflexivity.
  - done.
  - done.
  - reflexivity.
  - intros input ->%list_elem_of_singleton. right. right. done.
Defined.



(** X25. The values the caller gives with [--input] reach the template only: two
    runs of the same request in the same world that differ in these values
    and both write an item write it under the same identifier, title and
    status, in the same folder, to the same path. *)
Theorem input_values_do_not_rename E cfg args interactive helpInputs
    values1 values2 w item1 w1 item2 w2 :
  createWorkItem E cfg args interactive values1 helpInputs w
  = (inr (Wrote item1), w1) →
  createWorkItem E cfg args interactive values2 helpInputs w
  = (inr (Wrote item2), w2) →
  c_id item1 = c_id item2
  ∧ c_template item1 = c_template item2
  ∧ c_title item1 = c_title item2
  ∧ c_status item1 = c_status item2
  ∧ c_folder item1 = c_folder item2
  ∧ c_filename item1 = c_filename item2
  ∧ c_path item1 = c_path item2.
Proof.
  intros Hrun1 Hrun2.
  pose proof (written_item _ _ _ _ _ _ _ _ _ Hrun1)
    as (p1 & Hp1 & _ & _ & Hst1 & Hid1 & Hf1 & _ & Hn1 & Hpath1 & _).
  pose proof (written_item _ _ _ _ _ _ _ _ _ Hrun2)
    as (p2 & Hp2 & _ & _ & Hst2 & Hid2 & Hf2 & _ & Hn2 & Hpath2 & _).
  apply createWorkItem_wrote in Hrun1
    as (_ & q1 & u1 & v1 & Hq1 & Htpl1 & Htitle1 & _).
  apply createWorkItem_wrote in Hrun2
    as (_ & q2 & u2 & v2 & Hq2 & Htpl2 & Htitle2 & _).
  assert (p2 = p1) as -> by congruence.
  assert (q1 = p1) as -> by congruence.
  assert (q2 = p1) as -> by congruence.
  assert (c_template item1 = c_template item2 ∧ u1 = u2) as [Htpl ->].
  { rewrite Htpl1 in Htpl2. by injection Htpl2. }
  assert (c_title item1 = c_title item2) as Htitle.
  { rewrite Htitle1 in Htitle2. by injection Htitle2. }
  assert (c_id item1 = c_id item2) as Hid by congruence.
  assert (c_status item1 = c_status item2) as Hst by congruence.
  assert (c_folder item1 = c_folder item2) as Hf by congruence.
  assert (c_filename item1 = c_filename item2) as Hn by congruence.
  split_and!; try done. congruence.
Qed.

Lemma input_values_do_not_rename_witness :
  ∃ item1 w1 item2 w2,
    createWorkItem Example.collab Example.cfg ["prd"; "todo"; "Fix bug"]
      false ∅ false Example.world = (inr (Wrote item1), w1)
    ∧ createWorkItem Example.collab Example.cfg ["prd"; "todo"; "Fix bug"]
        false {[ "id" := "999"; "title" := "Other" ]} false Example.world
      = (inr (Wrote item2), w2)
    ∧ c_inputs item2 !! "id" = Some "999"
    ∧ c_path item2 = ".work/1_todo/001-fix-bug.prd.md"
    ∧ c_path item1 = c_path item2.
Proof.
  eexists _, _, _, _. split; [vm_compute; reflexivity|].
  split; [vm_compute; reflexivity|].
  split; [vm_compute; reflexivity|]. split; [reflexivity|].
  refine (proj2 (proj2 (proj2 (proj2 (proj2 (proj2
    (input_values_do_not_rename Example.collab Example.cfg
       ["prd"; "todo"; "Fix bug"] false false
       ∅ {[ "id" := "999"; "title" := "Other" ]} Example.world
       _ _ _ _ _ _))))))).
  - vm_compute; reflexivity.
  - vm_compute; reflexivity.
Defined.
